(** * collectd plugin core (src/plugin.c)

    A shallow embedding of the plugin registry, the value dispatcher, the
    lifecycle sweeps, the module loader and the complaint limiter of
    collectd's [plugin.c], together with the properties stated about them. *)

From Stdlib Require Import ZArith List String Ascii Bool Lia.
Import ListNotations.
Local Open Scope Z_scope.

Set Warnings "-abstract-large-number".

(** ** The complaint limiter: [plugin_complain] and [plugin_relief] *)

Module Complain.

(** Modelled from the spec: [complain_t] is declared in plugin.h, which is not
    among the sources.  It holds the current [interval] (seconds) and the
    [delay] (occurrences that are still to be suppressed); both are counters
    and are taken as C [unsigned int], so the only operation that could leave
    the range, the doubling, wraps modulo 2^32. *)
Record complain_t : Type := { interval : Z; delay : Z }.

(** A call site starts from a zero-initialised record. *)
Definition complain_zero : complain_t := {| interval := 0; delay := 0 |}.

Definition UINT_MODULUS : Z := 2 ^ 32.

Definition wrap_uint (z : Z) : Z := z mod UINT_MODULUS.

(** One line handed to [syslog]: the level and the formatted message. *)
Definition log_entry : Type := (Z * string)%type.

(** [vsnprintf (message, 512, format, ap); message[511] = '\0';] keeps at most
    511 bytes of the formatted text.  The formatted text itself is the
    argument [msg]. *)
Definition format_message (msg : string) : string := substring 0 511 msg.

(** [plugin_complain].  [step] is [atoi (COLLECTD_STEP)], a macro of
    collectd.h; [None] is the abort of [assert (step > 0)].  The result is the
    new record and the lines written to syslog by this call. *)
Definition plugin_complain (step : Z) (level : Z) (c : complain_t) (msg : string)
  : option (complain_t * list log_entry) :=
  if 0 <? delay c then
    Some ({| interval := interval c; delay := delay c - 1 |}, [])
  else if negb (0 <? step) then None
  else
    let i1 := if interval c <? step then step else wrap_uint (interval c * 2) in
    let i2 := if 86400 <? i1 then 86400 else i1 in
    Some ({| interval := i2; delay := i2 / step |}, [(level, format_message msg)]).

(** [plugin_relief]. *)
Definition plugin_relief (level : Z) (c : complain_t) (msg : string)
  : complain_t * list log_entry :=
  if interval c =? 0 then (c, [])
  else ({| interval := 0; delay := delay c |}, [(level, format_message msg)]).

(** A call made at one call site. *)
Inductive call : Type :=
| Complain (level : Z) (msg : string)
| Relief (level : Z) (msg : string).

Definition do_call (step : Z) (c : complain_t) (k : call)
  : option (complain_t * list log_entry) :=
  match k with
  | Complain level msg => plugin_complain step level c msg
  | Relief level msg => Some (plugin_relief level c msg)
  end.

(** The calls of [ks] made one after the other on the same record; the log
    lines are collected in the order they are written. *)
Fixpoint run (step : Z) (c : complain_t) (ks : list call)
  : option (complain_t * list log_entry) :=
  match ks with
  | [] => Some (c, [])
  | k :: ks' =>
      match do_call step c k with
      | None => None
      | Some (c1, out1) =>
          match run step c1 ks' with
          | None => None
          | Some (c2, out2) => Some (c2, out1 ++ out2)
          end
      end
  end.

(** The records a call site can hold: those reached from the zero record. *)
Definition reachable (step : Z) (c : complain_t) : Prop :=
  exists ks out, run step complain_zero ks = Some (c, out).

(** [n] consecutive [plugin_complain] calls with the same level and text. *)
Definition complain_calls (n : nat) : list call := repeat (Complain 3 "failed") n.

(** The record after the calls of [ks], when none of them aborts. *)
Definition state_after (step : Z) (c : complain_t) (ks : list call) : option complain_t :=
  option_map fst (run step c ks).

(** The cycles (0-based call numbers) among the first [n] consecutive
    complaints at which a line is written, with the interval left by that
    call. *)
Fixpoint emitting_cycles (step : Z) (c : complain_t) (cycle : nat) (n : nat)
  : list (nat * Z) :=
  match n with
  | O => []
  | S n' =>
      match plugin_complain step 3 c "failed" with
      | None => []
      | Some (c1, out) =>
          match out with
          | [] => emitting_cycles step c1 (S cycle) n'
          | _ :: _ => (cycle, interval c1) :: emitting_cycles step c1 (S cycle) n'
          end
      end
  end.

(** The record is in range: what every call leaves behind. *)
Definition in_range (c : complain_t) : Prop :=
  0 <= interval c <= 86400 /\ 0 <= delay c.

(** The record [plugin_complain] leaves, for a positive step. *)
Definition complain_next (step : Z) (c : complain_t) : complain_t :=
  if 0 <? delay c then {| interval := interval c; delay := delay c - 1 |}
  else
    let i1 := if interval c <? step then step else wrap_uint (interval c * 2) in
    let i2 := if 86400 <? i1 then 86400 else i1 in
    {| interval := i2; delay := i2 / step |}.

Fixpoint complain_steps (step : Z) (n : nat) (c : complain_t) : complain_t :=
  match n with
  | O => c
  | S n' => complain_steps step n' (complain_next step c)
  end.

Definition is_relief (k : call) : bool :=
  match k with
  | Relief _ _ => true
  | Complain _ _ => false
  end.

End Complain.

(** ** The linked list of utils_llist, as plugin.c uses it *)

Module LList.

Section Entries.
Context {V : Type}.

(** Modelled from the spec: utils_llist.c ([llist_create], [llentry_create],
    [llist_search], [llist_append], [llist_head]) is not among the sources.
    The spec fixes what plugin.c relies on: a registry keeps its entries in
    insertion order, a lookup returns the entry stored under a name or "not
    found", and a never-populated registry is inert.  An entry is a key with
    an opaque value; a list is the sequence of its entries from the head, each
    followed by its [next]. *)
Record llentry_t : Type := { key : string; value : V }.

Definition llist_t : Type := list llentry_t.

(** Modelled from the spec: the outcomes of the allocation requests still to
    come, in order ([true]: the request is served).  Registration "fails only
    on allocation/resource exhaustion"; once the recorded outcomes are used
    up, memory is plentiful. *)
Definition heap : Type := list bool.

Definition malloc (h : heap) : bool * heap :=
  match h with
  | [] => (true, [])
  | ok :: h' => (ok, h')
  end.

(** Modelled from the spec: [llist_create] returns a fresh empty list, or
    NULL when the allocation fails. *)
Definition llist_create (h : heap) : option llist_t * heap :=
  let (ok, h') := malloc h in ((if ok then Some [] else None), h').

(** Modelled from the spec: [llentry_create] returns a fresh entry, or NULL
    when the allocation fails. *)
Definition llentry_create (h : heap) (name : string) (v : V)
  : option llentry_t * heap :=
  let (ok, h') := malloc h in
  ((if ok then Some {| key := name; value := v |} else None), h').

(** Modelled from the spec: [llist_append] puts the entry behind the last
    one. *)
Definition llist_append (l : llist_t) (le : llentry_t) : llist_t := l ++ [le].

(** The entries from the one at the head on. *)
Definition llist_head (l : llist_t) : list llentry_t := l.

Fixpoint search_from (l : list llentry_t) (name : string) (pos : nat)
  : option (nat * llentry_t) :=
  match l with
  | [] => None
  | le :: next =>
      if String.eqb name (key le) then Some (pos, le)
      else search_from next name (S pos)
  end.

(** Modelled from the spec: [llist_search] returns the first entry stored
    under [name], or NULL; a registry that was never created holds nothing.
    The returned pointer is the entry's position in the list together with
    the entry found there, so that a write through it changes the list
    itself. *)
Definition llist_search (l : option llist_t) (name : string)
  : option (nat * llentry_t) :=
  match l with
  | None => None
  | Some l => search_from l name 0
  end.

(** [le->value = v] for the entry at position [le]. *)
Fixpoint set_value (l : llist_t) (le : nat) (v : V) : llist_t :=
  match l, le with
  | [], _ => []
  | e :: next, O => {| key := key e; value := v |} :: next
  | e :: next, S le' => e :: set_value next le' v
  end.

(** [register_callback].  The registry [list] is NULL ([None]) until its first
    registration.  Returns the status, the registry and the heap. *)
Definition register_callback (h : heap) (list : option llist_t)
    (name : string) (callback : V) : Z * option llist_t * heap :=
  let '(created, h1) :=
    match list with
    | None => llist_create h
    | Some l => (Some l, h)
    end in
  match created with
  | None => (-1, None, h1)
  | Some l =>
      match llist_search (Some l) name with
      | None =>
          let '(le, h2) := llentry_create h1 name callback in
          match le with
          | None => (-1, Some l, h2)
          | Some le => (0, Some (llist_append l le), h2)
          end
      | Some (le, _) => (0, Some (set_value l le callback), h1)
      end
  end.

(** The names of a registry in iteration order. *)
Definition keys (reg : option llist_t) : list string :=
  match reg with
  | None => []
  | Some l => map key l
  end.

Definition entries (reg : option llist_t) : llist_t :=
  match reg with
  | None => []
  | Some l => l
  end.

(** The callback stored under [name]. *)
Definition lookup (reg : option llist_t) (name : string) : option V :=
  match llist_search reg name with
  | None => None
  | Some (_, le) => Some (value le)
  end.

(** Registries as the registration functions build them: from the NULL
    pointer, by calls of [register_callback] under any allocation outcomes. *)
Inductive registry : option llist_t -> Prop :=
| registry_null : registry None
| registry_register h reg name callback :
    registry reg ->
    registry (snd (fst (register_callback h reg name callback))).

End Entries.

Arguments llentry_t : clear implicits.
Arguments llist_t : clear implicits.

End LList.

(** ** The registries, the lifecycle sweeps and the dispatcher *)

Module Plugin.
Import LList.

Section Core.
(** [world] is whatever the callbacks act on (the daemon's files, sockets and
    caches); [value_list_t] is the measurement handed to the writers.  Both
    are opaque to plugin.c.  The registries are not part of the world: a
    callback is taken not to register anything while the sweep it is invoked
    from is running. *)
Context {world value_list_t : Type}.

(** Modelled from the spec: [data_set_t] is declared in plugin.h, which is not
    among the sources: a schema is a type name with the names and kinds of
    its numeric fields.  plugin.c only reads [ds->type]. *)
Record data_set_t : Type := { type : string; ds : list (string * Z) }.

(** A pointer to a function [int f (void)]: the init, read and shutdown
    callbacks. *)
Definition void_cb : Type := world -> world * Z.

(** A pointer to a function [int f (const data_set_t ds, const value_list_t vl)],
    both arguments passed by reference: the write callbacks. *)
Definition write_cb : Type := data_set_t -> value_list_t -> world -> world * Z.

(** The private variables of plugin.c; [mem] holds the allocation outcomes
    the registrations will meet. *)
Record plugin_state : Type := {
  list_init : option (llist_t void_cb);
  list_read : option (llist_t void_cb);
  list_write : option (llist_t write_cb);
  list_shutdown : option (llist_t void_cb);
  list_data_set : option (llist_t data_set_t);
  mem : heap
}.

(** The static variables before any registration. *)
Definition initial_state (h : heap) : plugin_state :=
  {| list_init := None; list_read := None; list_write := None;
     list_shutdown := None; list_data_set := None; mem := h |}.

Definition plugin_register_init (st : plugin_state) (name : string)
    (callback : void_cb) : Z * plugin_state :=
  let '(r, l, h) := register_callback (mem st) (list_init st) name callback in
  (r, {| list_init := l; list_read := list_read st; list_write := list_write st;
         list_shutdown := list_shutdown st; list_data_set := list_data_set st;
         mem := h |}).

Definition plugin_register_read (st : plugin_state) (name : string)
    (callback : void_cb) : Z * plugin_state :=
  let '(r, l, h) := register_callback (mem st) (list_read st) name callback in
  (r, {| list_init := list_init st; list_read := l; list_write := list_write st;
         list_shutdown := list_shutdown st; list_data_set := list_data_set st;
         mem := h |}).

Definition plugin_register_write (st : plugin_state) (name : string)
    (callback : write_cb) : Z * plugin_state :=
  let '(r, l, h) := register_callback (mem st) (list_write st) name callback in
  (r, {| list_init := list_init st; list_read := list_read st; list_write := l;
         list_shutdown := list_shutdown st; list_data_set := list_data_set st;
         mem := h |}).

Definition plugin_register_shutdown (st : plugin_state) (name : string)
    (callback : void_cb) : Z * plugin_state :=
  let '(r, l, h) := register_callback (mem st) (list_shutdown st) name callback in
  (r, {| list_init := list_init st; list_read := list_read st;
         list_write := list_write st; list_shutdown := l;
         list_data_set := list_data_set st; mem := h |}).

Definition plugin_register_data_set (st : plugin_state) (d : data_set_t)
  : Z * plugin_state :=
  let '(r, l, h) := register_callback (mem st) (list_data_set st) (type d) d in
  (r, {| list_init := list_init st; list_read := list_read st;
         list_write := list_write st; list_shutdown := list_shutdown st;
         list_data_set := l; mem := h |}).

(** The loop of [plugin_init_all] and [plugin_shutdown_all]: every entry from
    [le] on is invoked, its status dropped.  Next to the world the sweep
    returns the names of the entries it invoked, in order. *)
Fixpoint sweep (le : list (llentry_t void_cb)) (w : world) : world * list string :=
  match le with
  | [] => (w, [])
  | e :: next =>
      let (w1, _) := value e w in
      let (w2, invoked) := sweep next w1 in
      (w2, key e :: invoked)
  end.

Definition plugin_init_all (st : plugin_state) (w : world) : world * list string :=
  match list_init st with
  | None => (w, [])
  | Some l => sweep (llist_head l) w
  end.

Definition plugin_shutdown_all (st : plugin_state) (w : world) : world * list string :=
  match list_shutdown st with
  | None => (w, [])
  | Some l => sweep (llist_head l) w
  end.

(** The loop of [plugin_read_all].  [loop] is the cancellation flag as the
    sweep sees it: [loop k] is the value [*loop] holds at the [k]-th
    evaluation of the loop condition (the flag is owned by the scheduler and
    may change at any time, also by the callback that just ran). *)
Fixpoint read_sweep (loop : nat -> Z) (k : nat) (le : list (llentry_t void_cb))
    (w : world) : world * list string :=
  if negb (loop k =? 0) then (w, [])
  else
    match le with
    | [] => (w, [])
    | e :: next =>
        let (w1, _) := value e w in
        let (w2, invoked) := read_sweep loop (S k) next w1 in
        (w2, key e :: invoked)
    end.

Definition plugin_read_all (loop : nat -> Z) (st : plugin_state) (w : world)
  : world * list string :=
  match list_read st with
  | None => (w, [])
  | Some l => read_sweep loop 0 (llist_head l) w
  end.

(** One invocation made by the dispatcher: the writer's name and the two
    arguments it was given. *)
Definition write_call : Type := (string * data_set_t * value_list_t)%type.

(** The loop of [plugin_dispatch_values]. *)
Fixpoint write_sweep (le : list (llentry_t write_cb)) (d : data_set_t)
    (vl : value_list_t) (w : world) : world * list write_call :=
  match le with
  | [] => (w, [])
  | e :: next =>
      let (w1, _) := value e d vl w in
      let (w2, invoked) := write_sweep next d vl w1 in
      (w2, (key e, d, vl) :: invoked)
  end.

(** [plugin_dispatch_values]: the status, the world and the invocations
    made. *)
Definition plugin_dispatch_values (st : plugin_state) (name : string)
    (vl : value_list_t) (w : world) : Z * world * list write_call :=
  match list_write st with
  | None => (-1, w, [])
  | Some lw =>
      match llist_search (list_data_set st) name with
      | None => (-1, w, [])
      | Some (_, le) =>
          let d := value le in
          let (w', invoked) := write_sweep (llist_head lw) d vl w in
          (0, w', invoked)
      end
  end.

(** The world after the writers of [le] ran one after the other on [(d, vl)]. *)
Definition run_writers (le : list (llentry_t write_cb)) (d : data_set_t)
    (vl : value_list_t) (w : world) : world :=
  fold_left (fun w0 e => fst (value e d vl w0)) le w.

(** The world after the callbacks of [le] ran one after the other. *)
Definition run_callbacks (le : list (llentry_t void_cb)) (w : world) : world :=
  fold_left (fun w0 e => fst (value e w0)) le w.

(** The registration calls a module can make. *)
Inductive registration : Type :=
| RegInit (name : string) (callback : void_cb)
| RegRead (name : string) (callback : void_cb)
| RegWrite (name : string) (callback : write_cb)
| RegShutdown (name : string) (callback : void_cb)
| RegDataSet (d : data_set_t).

Definition register (st : plugin_state) (r : registration) : Z * plugin_state :=
  match r with
  | RegInit name callback => plugin_register_init st name callback
  | RegRead name callback => plugin_register_read st name callback
  | RegWrite name callback => plugin_register_write st name callback
  | RegShutdown name callback => plugin_register_shutdown st name callback
  | RegDataSet d => plugin_register_data_set st d
  end.

(** The state after the registration calls of [rs], with the status of each. *)
Fixpoint register_all (st : plugin_state) (rs : list registration)
  : list Z * plugin_state :=
  match rs with
  | [] => ([], st)
  | r :: rs' =>
      let (status, st1) := register st r in
      let (statuses, st2) := register_all st1 rs' in
      (status :: statuses, st2)
  end.

(** Whether the registration call [r] made in state [st] put a write callback
    into the registry. *)
Definition registers_writer (st : plugin_state) (r : registration) : bool :=
  match r with
  | RegWrite _ _ => fst (register st r) =? 0
  | _ => false
  end.

(** Whether any call of [rs], made from [st] on, registered a write
    callback. *)
Fixpoint writer_registered (st : plugin_state) (rs : list registration) : bool :=
  match rs with
  | [] => false
  | r :: rs' => registers_writer st r || writer_registered (snd (register st r)) rs'
  end.

(** The number of callbacks a read sweep over [n] entries gets to invoke when
    its first check is the [k]-th evaluation of the flag: the checks that find
    the flag clear before the first one that finds it set. *)
Fixpoint checks_passed (loop : nat -> Z) (k n : nat) : nat :=
  match n with
  | O => O
  | S n' => if loop k =? 0 then S (checks_passed loop (S k) n') else O
  end.

(** The names given in the write registrations of [rs], in order. *)
Definition writer_names (rs : list registration) : list string :=
  flat_map (fun r => match r with RegWrite name _ => [name] | _ => [] end) rs.

Definition is_write_registration (r : registration) : bool :=
  match r with
  | RegWrite _ _ => true
  | _ => false
  end.

(** Whether the registration [r] can change what a dispatch for the type
    [name] does: it is a write registration, or it registers a schema for
    that very type. *)
Definition concerns_dispatch (r : registration) (name : string) : bool :=
  match r with
  | RegWrite _ _ => true
  | RegDataSet d => String.eqb name (type d)
  | _ => false
  end.

End Core.

Arguments plugin_state : clear implicits.
Arguments void_cb : clear implicits.
Arguments write_cb : clear implicits.
Arguments registration : clear implicits.
Arguments write_call : clear implicits.

(** The order of first registration: every name once, where it came first. *)
Definition add_name (names : list string) (name : string) : list string :=
  if in_dec string_dec name names then names else names ++ [name].

Definition first_registration_order (names : list string) : list string :=
  fold_left add_name names [].

End Plugin.

(** ** The module loader: [plugin_load_file] and [plugin_load] *)

Module Loader.

Local Open Scope string_scope.

Definition BUFSIZE : Z := 512.

(** A C string is the bytes before the terminating NUL, so it holds none. *)
Fixpoint is_cstring (s : string) : bool :=
  match s with
  | EmptyString => true
  | String c s' => negb (Ascii.eqb c zero) && is_cstring s'
  end.

(** [tolower] of the C locale. *)
Definition tolower (c : ascii) : ascii :=
  let n := nat_of_ascii c in
  if ((65 <=? n) && (n <=? 90))%nat then ascii_of_nat (n + 32) else c.

Fixpoint lower (s : string) : string :=
  match s with
  | EmptyString => EmptyString
  | String c s' => String (tolower c) (lower s')
  end.

(** The byte a C string points at (the terminator at its end) and the string
    one byte further. *)
Definition peek (s : string) : ascii :=
  match s with
  | EmptyString => zero
  | String c _ => c
  end.

Definition advance (s : string) : string :=
  match s with
  | EmptyString => EmptyString
  | String _ s' => s'
  end.

(** [strncasecmp]: at most [n] bytes are compared without regard to case; the
    comparison ends at the first difference or at a terminator. *)
Fixpoint strncasecmp (s1 s2 : string) (n : nat) : Z :=
  match n with
  | O => 0%Z
  | S n' =>
      let c1 := tolower (peek s1) in
      let c2 := tolower (peek s2) in
      if negb (Ascii.eqb c1 c2) then
        (Z.of_nat (nat_of_ascii c1) - Z.of_nat (nat_of_ascii c2))%Z
      else if Ascii.eqb c1 zero then 0%Z
      else strncasecmp (advance s1) (advance s2) n'
  end.

Definition strlen (s : string) : nat := String.length s.

(** [S_ISREG (statbuf.st_mode)]. *)
Definition S_IFMT : Z := 61440.
Definition S_IFREG : Z := 32768.
Definition S_ISREG (st_mode : Z) : bool := (Z.land st_mode S_IFMT =? S_IFREG)%Z.

(** What the loop of [plugin_load] did with a directory entry whose name
    matched. *)
Inductive attempt : Type :=
| PathTruncated
| StatFailed
| NotRegular
| LoadFile (status : Z).

Section Host.
(** The host the loader runs on: the dynamic linker, and the file system as
    [opendir]/[readdir] and [lstat] show it.  [opendir dir] is the sequence of
    [d_name]s that [readdir] returns; [lstat file] is [st_mode], or [None] for
    the result -1. *)
Context {world dlhandle : Type}.
Variable lt_dlopen : string -> option dlhandle.
Variable lt_dlsym : dlhandle -> string -> option (world -> world).
Variable opendir : string -> option (list string).
Variable lstat : string -> option Z.
(** The macro [PLUGINDIR] of the build. *)
Variable PLUGINDIR : string.

Definition plugin_get_dir (plugindir : option string) : string :=
  match plugindir with
  | None => PLUGINDIR
  | Some dir => dir
  end.

(** [plugin_load_file]: 1 when the file is no shared object, -1 when it has no
    [module_register], 0 once [module_register] has run. *)
Definition plugin_load_file (file : string) (w : world) : Z * world :=
  match lt_dlopen file with
  | None => (1%Z, w)
  | Some dlh =>
      match lt_dlsym dlh "module_register" with
      | None => ((-1)%Z, w)
      | Some reg_handle => (0%Z, reg_handle w)
      end
  end.

(** The [while ((de = readdir (dh)) != NULL)] loop of [plugin_load], [ret]
    being 1 when it is entered.  Next to the status and the world it returns,
    for every entry that got past the name test, what was done with it. *)
Fixpoint load_loop (dir typename : string) (typename_len : nat)
    (des : list string) (w : world) : Z * world * list (string * attempt) :=
  match des with
  | [] => (1%Z, w, [])
  | d_name :: rest =>
      if negb (strncasecmp d_name typename typename_len =? 0)%Z then
        load_loop dir typename typename_len rest w
      else
        let filename := dir ++ "/" ++ d_name in
        let continue (a : attempt) (w1 : world) :=
          let '(ret, w2, log) := load_loop dir typename typename_len rest w1 in
          (ret, w2, (d_name, a) :: log) in
        if (Z.of_nat (strlen filename) >=? BUFSIZE)%Z then continue PathTruncated w
        else
          match lstat filename with
          | None => continue StatFailed w
          | Some st_mode =>
              if negb (S_ISREG st_mode) then continue NotRegular w
              else
                let (status, w1) := plugin_load_file filename w in
                if (status =? 0)%Z then (0%Z, w1, [(d_name, LoadFile status)])
                else continue (LoadFile status) w1
          end
  end.

(** [plugin_load]. *)
Definition plugin_load (plugindir : option string) (type : string) (w : world)
  : Z * world * list (string * attempt) :=
  let dir := plugin_get_dir plugindir in
  let typename := type ++ ".so" in
  if (Z.of_nat (strlen typename) >=? BUFSIZE)%Z then ((-1)%Z, w, [])
  else
    let typename_len := strlen typename in
    match opendir dir with
    | None => ((-1)%Z, w, [])
    | Some des => load_loop dir typename typename_len des w
    end.

(** The name test of the loop: the entry is looked at further. *)
Definition candidate (type d_name : string) : bool :=
  (strncasecmp d_name (type ++ ".so") (strlen (type ++ ".so")) =? 0)%Z.

(** What the loop body does with a candidate, the world left aside. *)
Definition attempt_of (dir d_name : string) : attempt :=
  let filename := dir ++ "/" ++ d_name in
  if (Z.of_nat (strlen filename) >=? BUFSIZE)%Z then PathTruncated
  else
    match lstat filename with
    | None => StatFailed
    | Some st_mode =>
        if negb (S_ISREG st_mode) then NotRegular
        else
          match lt_dlopen filename with
          | None => LoadFile 1
          | Some dlh =>
              match lt_dlsym dlh "module_register" with
              | None => LoadFile (-1)
              | Some _ => LoadFile 0
              end
          end
    end.

(** The candidate activates: [plugin_load_file] is reached and returns 0. *)
Definition activates (dir d_name : string) : bool :=
  match attempt_of dir d_name with
  | LoadFile status => (status =? 0)%Z
  | _ => false
  end.

(** The world after the loop: [module_register] of the first candidate that
    activates has run, and nothing else. *)
Definition world_after_load (dir : string) (cands : list string) (w : world) : world :=
  match find (activates dir) cands with
  | None => w
  | Some d_name => snd (plugin_load_file (dir ++ "/" ++ d_name) w)
  end.

End Host.

(** The elements of [l] up to and including the first that satisfies [p]. *)
Fixpoint through_first {A : Type} (p : A -> bool) (l : list A) : list A :=
  match l with
  | [] => []
  | x :: l' => if p x then [x] else x :: through_first p l'
  end.

(** The name begins with [pre], case left aside. *)
Definition begins_with_nocase (pre name : string) : bool :=
  String.prefix (lower pre) (lower name).

End Loader.

(** ** The plugin directory: [plugin_set_dir] *)

Module PluginDir.
Import LList.

(** [LOG_ERR] of syslog.h. *)
Definition LOG_ERR : Z := 3.

(** [strdup]: a copy of the string, or NULL when the allocation fails. *)
Definition strdup (h : heap) (s : string) : option string * heap :=
  let (ok, h') := malloc h in ((if ok then Some s else None), h').

(** [plugin_set_dir].  The old [plugindir] is freed whatever comes next.
    Returns the new [plugindir], the heap and the levels of the lines written
    to syslog. *)
Definition plugin_set_dir (h : heap) (plugindir : option string)
    (dir : option string) : option string * heap * list Z :=
  match dir with
  | None => (None, h, [])
  | Some d =>
      let (copy, h') := strdup h d in
      match copy with
      | None => (None, h', [LOG_ERR])
      | Some _ => (copy, h', [])
      end
  end.

End PluginDir.

(** ** Registrations made one after the other *)

Module Registrations.
Import LList.

Section Sequence.
Context {V : Type}.

(** The registry after [register_callback] was called for each pair of [ops]
    in turn, memory being plentiful, starting from [reg]. *)
Definition registry_from (reg : option (llist_t V)) (ops : list (string * V))
  : option (llist_t V) :=
  fold_left (fun r op => snd (fst (register_callback [] r (fst op) (snd op)))) ops reg.

Definition registry_of (ops : list (string * V)) : option (llist_t V) :=
  registry_from None ops.

(** The callback given with [name] the last time it occurs in [ops], or
    [init] when it does not occur. *)
Definition last_binding_from (init : option V) (ops : list (string * V))
    (name : string) : option V :=
  fold_left (fun acc op => if String.eqb name (fst op) then Some (snd op) else acc)
    ops init.

Definition last_binding (ops : list (string * V)) (name : string) : option V :=
  last_binding_from None ops name.

End Sequence.

End Registrations.

(** ** The file checks of the loader *)

Module LoadChecks.

(** The checks of [plugin_load] that come before [plugin_load_file]: the path
    fits the buffer, [lstat] works and shows a regular file. *)
Definition loadable (lstat : string -> option Z) (dir d_name : string) : bool :=
  let filename := (dir ++ "/" ++ d_name)%string in
  (Z.of_nat (Loader.strlen filename) <? Loader.BUFSIZE)
  && match lstat filename with
     | None => false
     | Some st_mode => Loader.S_ISREG st_mode
     end.

End LoadChecks.

(** ** A small daemon to run the definitions on *)

Module Example.
Import LList Plugin.
Local Open Scope string_scope.

(** The world is the sequence of lines the callbacks have written; a
    measurement is its values. *)
Definition world : Type := list string.
Definition value_list_t : Type := list Z.

(** A writer that notes its tag and the type it was given and returns
    [status]. *)
Definition log_writer (tag : string) (status : Z) : write_cb world value_list_t :=
  fun d _ w => (List.app w [String.append tag (String.append ":" (type d))], status).

(** A read, init or shutdown callback that notes its tag. *)
Definition log_callback (tag : string) (status : Z) : void_cb world :=
  fun w => (List.app w [tag], status).

Definition cpu : data_set_t := {| type := "cpu"; ds := [("user", 1); ("syst", 1)] |}.

(** A schema and two writers, the first of which keeps failing. *)
Definition two_writers : plugin_state world value_list_t :=
  snd (register_all (initial_state [])
         [RegDataSet cpu;
          RegWrite "rrdtool" (log_writer "rrdtool" (-1));
          RegWrite "csv" (log_writer "csv" 0)]).

(** A schema and a read callback, no writer. *)
Definition no_writer : plugin_state world value_list_t :=
  snd (register_all (initial_state [])
         [RegDataSet cpu; RegRead "cpu" (log_callback "cpu" 0)]).

(** A write registration that gets its registry but no memory for the entry,
    then a schema. *)
Definition starved_registrations : list (registration world value_list_t) :=
  [RegWrite "csv" (log_writer "csv" 0); RegDataSet cpu].

Definition starved_writer : plugin_state world value_list_t :=
  snd (register_all (initial_state [true; false]) starved_registrations).

(** Two writers, no schema for [cpu]. *)
Definition no_schema : plugin_state world value_list_t :=
  snd (register_all (initial_state [])
         [RegWrite "rrdtool" (log_writer "rrdtool" 0);
          RegWrite "csv" (log_writer "csv" 0)]).

(** Three read callbacks. *)
Definition three_readers : plugin_state world value_list_t :=
  snd (register_all (initial_state [])
         [RegRead "cpu" (log_callback "cpu" 0);
          RegRead "load" (log_callback "load" 0);
          RegRead "df" (log_callback "df" 0)]).

(** The flag is raised while the first callback runs. *)
Definition raised_at_1 (k : nat) : Z := if Nat.eqb k 1 then 1 else 0.

(** A plugin directory: an entry for another plugin, a symbolic link, a file
    that is no shared object, and the plugin itself. *)
Definition host_opendir (dir : string) : option (list string) :=
  if String.eqb dir "/usr/lib/collectd" then
    Some ["."; ".."; "cpufreq.so"; "cpu.so.old"; "CPU.so"; "cpu.so"]
  else None.

Definition host_lstat (file : string) : option Z :=
  if String.eqb file "/usr/lib/collectd/cpu.so.old" then Some 41471
  else if String.eqb file "/usr/lib/collectd/missing.so" then None
  else Some 33261.

Definition host_dlopen (file : string) : option string :=
  if String.eqb file "/usr/lib/collectd/CPU.so" then None else Some file.

Definition host_dlsym (dlh : string) (symbol : string) : option (world -> world) :=
  if String.eqb symbol "module_register"
  then Some (fun w => List.app w [String.append "module_register " dlh])
  else None.

End Example.

(** * Properties *)

(** ** The complaint limiter *)

(** [plugin_complain] case by case, the range every record stays in, and the
    records reached by consecutive complaints. *)

Section ComplainFacts.
Import Complain.

Lemma plugin_complain_suppressed step level c msg :
  0 < delay c ->
  plugin_complain step level c msg
  = Some ({| interval := interval c; delay := delay c - 1 |}, []).
Proof.
  intros Hd. unfold plugin_complain.
  destruct (0 <? delay c) eqn:E; [reflexivity | apply Z.ltb_ge in E; lia].
Qed.

Lemma plugin_complain_emitting step level c msg :
  0 < step -> delay c <= 0 ->
  plugin_complain step level c msg
  = Some (complain_next step c, [(level, format_message msg)]).
Proof.
  intros Hs Hd. unfold plugin_complain, complain_next.
  destruct (0 <? delay c) eqn:E; [apply Z.ltb_lt in E; lia |].
  destruct (0 <? step) eqn:E'; [reflexivity | apply Z.ltb_ge in E'; lia].
Qed.

Lemma plugin_complain_state step level c msg :
  0 < step ->
  exists out, plugin_complain step level c msg = Some (complain_next step c, out).
Proof.
  intros Hs. destruct (Z_lt_le_dec 0 (delay c)) as [Hd | Hd].
  - exists []. rewrite plugin_complain_suppressed by assumption.
    unfold complain_next. apply Z.ltb_lt in Hd. rewrite Hd. reflexivity.
  - eexists. apply plugin_complain_emitting; assumption.
Qed.

Lemma wrap_uint_small z : 0 <= z <= 172800 -> wrap_uint z = z.
Proof.
  intros Hz. unfold wrap_uint, UINT_MODULUS. apply Z.mod_small.
  change (2 ^ 32) with 4294967296. lia.
Qed.

Lemma complain_next_interval step c :
  0 < step -> in_range c -> delay c <= 0 ->
  interval (complain_next step c)
  = if interval c <? step then Z.min step 86400 else Z.min (2 * interval c) 86400.
Proof.
  intros Hs [Hi Hd] Hz. unfold complain_next.
  destruct (0 <? delay c) eqn:E; [apply Z.ltb_lt in E; lia |].
  cbn [interval]. destruct (interval c <? step) eqn:E1.
  - destruct (86400 <? step) eqn:E2;
      [apply Z.ltb_lt in E2 | apply Z.ltb_ge in E2]; lia.
  - rewrite wrap_uint_small by lia.
    destruct (86400 <? interval c * 2) eqn:E2;
      [apply Z.ltb_lt in E2 | apply Z.ltb_ge in E2]; lia.
Qed.

Lemma complain_next_delay step c :
  delay c <= 0 ->
  delay (complain_next step c) = interval (complain_next step c) / step.
Proof.
  intros Hz. unfold complain_next.
  destruct (0 <? delay c) eqn:E; [apply Z.ltb_lt in E; lia | reflexivity].
Qed.

Lemma complain_next_in_range step c :
  0 < step -> in_range c -> in_range (complain_next step c).
Proof.
  intros Hs Hr. destruct (Z_lt_le_dec 0 (delay c)) as [Hd | Hd].
  - unfold complain_next. apply Z.ltb_lt in Hd as Hd'. rewrite Hd'.
    destruct Hr as [Hi Hd0]. split; cbn; lia.
  - pose proof (complain_next_interval step c Hs Hr Hd) as Hi.
    pose proof (complain_next_delay step c Hd) as Hdl.
    destruct Hr as [Hi0 Hd0].
    assert (0 <= interval (complain_next step c) <= 86400) as Hb.
    { rewrite Hi. destruct (interval c <? step); lia. }
    split; [exact Hb |]. rewrite Hdl. apply Z.div_pos; lia.
Qed.

Lemma plugin_relief_in_range level c msg :
  in_range c -> in_range (fst (plugin_relief level c msg)).
Proof.
  intros [Hi Hd]. unfold plugin_relief.
  destruct (interval c =? 0); cbn; [split; assumption | split; cbn; lia].
Qed.

Lemma run_in_range step ks :
  0 < step ->
  forall c c' out, in_range c -> run step c ks = Some (c', out) -> in_range c'.
Proof.
  intros Hs. induction ks as [| k ks IH]; intros c c' out Hr Hrun; cbn in Hrun.
  - injection Hrun as <- _. exact Hr.
  - destruct (do_call step c k) as [[c1 out1] |] eqn:Ek; [| discriminate].
    destruct (run step c1 ks) as [[c2 out2] |] eqn:Er; [| discriminate].
    injection Hrun as <- _. apply (IH c1 c2 out2); [| exact Er].
    destruct k as [level msg | level msg]; cbn in Ek.
    + destruct (plugin_complain_state step level c msg Hs) as [o Ho].
      rewrite Ho in Ek. injection Ek as <- _.
      apply complain_next_in_range; assumption.
    + injection Ek as Ek.
      pose proof (plugin_relief_in_range level c msg Hr) as Hr'.
      rewrite Ek in Hr'. exact Hr'.
Qed.

Lemma run_total step ks :
  0 < step -> forall c, exists c' out, run step c ks = Some (c', out).
Proof.
  intros Hs. induction ks as [| k ks IH]; intros c; cbn.
  - eauto.
  - assert (exists c1 out1, do_call step c k = Some (c1, out1)) as (c1 & out1 & E).
    { destruct k as [level msg | level msg]; cbn.
      - destruct (plugin_complain_state step level c msg Hs) as [o Ho]. eauto.
      - destruct (plugin_relief level c msg). eauto. }
    rewrite E. destruct (IH c1) as (c2 & out2 & E2). rewrite E2. eauto.
Qed.

Lemma complain_zero_in_range : in_range complain_zero.
Proof. unfold in_range; cbn; lia. Qed.

Lemma reachable_in_range step c : 0 < step -> reachable step c -> in_range c.
Proof.
  intros Hs (ks & out & Hrun).
  exact (run_in_range step ks Hs _ _ _ complain_zero_in_range Hrun).
Qed.

Lemma run_complain_calls step n :
  0 < step ->
  forall c, exists out,
    run step c (complain_calls n) = Some (complain_steps step n c, out).
Proof.
  intros Hs. induction n as [| n IH]; intros c; cbn.
  - eauto.
  - destruct (plugin_complain_state step 3 c "failed" Hs) as [o Ho].
    rewrite Ho. destruct (IH (complain_next step c)) as [o' Ho'].
    unfold complain_calls in Ho'. rewrite Ho'. eauto.
Qed.

Lemma complain_steps_add step n m c :
  complain_steps step (n + m) c = complain_steps step m (complain_steps step n c).
Proof. revert c. induction n as [| n IH]; intros c; cbn; [reflexivity | apply IH]. Qed.

Lemma complain_steps_in_range step n :
  0 < step -> forall c, in_range c -> in_range (complain_steps step n c).
Proof.
  intros Hs. induction n as [| n IH]; intros c Hr; cbn; [exact Hr |].
  apply IH. apply complain_next_in_range; assumption.
Qed.

End ComplainFacts.

Section ComplainClaims.
Import Complain.

(** While the delay lasts, the calls only count it down. *)
Lemma complain_drain step (d : nat) :
  forall c, delay c = Z.of_nat d ->
    complain_steps step d c = {| interval := interval c; delay := 0 |}.
Proof.
  induction d as [| d IH]; intros c Hd.
  - cbn. destruct c as [i dl]; cbn in *. subst dl. reflexivity.
  - cbn [complain_steps]. rewrite IH.
    + unfold complain_next. destruct (0 <? delay c) eqn:E; [reflexivity |].
      apply Z.ltb_ge in E. lia.
    + unfold complain_next. destruct (0 <? delay c) eqn:E; [cbn; lia |].
      apply Z.ltb_ge in E. lia.
Qed.

Lemma complain_saturated_stays step n :
  0 < step ->
  forall c, in_range c -> interval c = 86400 ->
    interval (complain_steps step n c) = 86400.
Proof.
  intros Hs. induction n as [| n IH]; intros c Hr Hi; cbn; [exact Hi |].
  apply IH; [apply complain_next_in_range; assumption |].
  destruct (Z_lt_le_dec 0 (delay c)) as [Hd | Hd].
  - unfold complain_next. apply Z.ltb_lt in Hd. rewrite Hd. exact Hi.
  - rewrite complain_next_interval by assumption.
    destruct (interval c <? step) eqn:E;
      [apply Z.ltb_lt in E | apply Z.ltb_ge in E]; lia.
Qed.

Lemma complain_doubles_to_ceiling step (k : nat) :
  0 < step ->
  forall c, in_range c -> step <= interval c -> 86400 <= interval c * 2 ^ Z.of_nat k ->
    exists n, interval (complain_steps step n c) = 86400.
Proof.
  intros Hs. induction k as [| k IH]; intros c Hr Hge Hk.
  - exists O. cbn in *. destruct Hr as [Hi _]. lia.
  - set (c0 := {| interval := interval c; delay := 0 |}).
    assert (in_range c0) as Hr0 by (destruct Hr; split; cbn; lia).
    assert (delay c0 <= 0) as Hd0 by (cbn; lia).
    pose proof (complain_next_interval step c0 Hs Hr0 Hd0) as Hi1.
    pose proof (complain_next_in_range step c0 Hs Hr0) as Hr1.
    cbn [interval c0] in Hi1.
    assert ((interval c <? step) = false) as E by (apply Z.ltb_ge; lia).
    change (interval c0) with (interval c) in Hi1. rewrite E in Hi1.
    destruct (IH (complain_next step c0) Hr1) as [n Hn].
    + rewrite Hi1. destruct Hr as [Hi _]. lia.
    + rewrite Hi1. rewrite Nat2Z.inj_succ, Z.pow_succ_r in Hk by lia.
      assert (1 <= 2 ^ Z.of_nat k) by (pose proof (Z.pow_pos_nonneg 2 (Z.of_nat k)); lia).
      destruct (Z.min_spec (2 * interval c) 86400) as [[_ ->] | [_ ->]]; nia.
    + exists (Z.to_nat (delay c) + (1 + n))%nat.
      rewrite complain_steps_add, (complain_drain step (Z.to_nat (delay c)) c)
        by (destruct Hr; rewrite Z2Nat.id; lia).
      cbn [Nat.add complain_steps]. exact Hn.
Qed.

Lemma complain_reaches_ceiling step c :
  0 < step -> in_range c ->
  exists n, interval (complain_steps step n c) = 86400.
Proof.
  intros Hs Hr.
  set (c0 := {| interval := interval c; delay := 0 |}).
  assert (in_range c0) as Hr0 by (destruct Hr; split; cbn; lia).
  assert (delay c0 <= 0) as Hd0 by (cbn; lia).
  pose proof (complain_next_interval step c0 Hs Hr0 Hd0) as Hi1.
  pose proof (complain_next_in_range step c0 Hs Hr0) as Hr1.
  change (interval c0) with (interval c) in Hi1.
  assert (interval (complain_next step c0) = 86400
          \/ step <= interval (complain_next step c0)) as [Hsat | Hge].
  { rewrite Hi1. destruct Hr as [Hi _].
    destruct (interval c <? step) eqn:E;
      [apply Z.ltb_lt in E | apply Z.ltb_ge in E]; lia. }
  - exists (Z.to_nat (delay c) + 1)%nat.
    rewrite complain_steps_add, (complain_drain step (Z.to_nat (delay c)) c)
      by (destruct Hr; rewrite Z2Nat.id; lia).
    exact Hsat.
  - destruct (complain_doubles_to_ceiling step 17 Hs _ Hr1 Hge) as [n Hn].
    + change (2 ^ Z.of_nat 17) with 131072. destruct Hr1 as [Hi _]. lia.
    + exists (Z.to_nat (delay c) + (1 + n))%nat.
      rewrite complain_steps_add, (complain_drain step (Z.to_nat (delay c)) c)
        by (destruct Hr; rewrite Z2Nat.id; lia).
      exact Hn.
Qed.

Lemma plugin_complain_first step level msg :
  0 < step ->
  plugin_complain step level complain_zero msg
  = Some ({| interval := Z.min step 86400; delay := Z.min step 86400 / step |},
          [(level, format_message msg)]).
Proof.
  intros Hs. rewrite plugin_complain_emitting by (cbn; lia).
  pose proof (complain_next_interval step complain_zero Hs
                complain_zero_in_range (Z.le_refl 0)) as Hi.
  pose proof (complain_next_delay step complain_zero (Z.le_refl 0)) as Hd.
  cbn [interval complain_zero] in Hi.
  assert ((0 <? step) = true) as E by (apply Z.ltb_lt; lia).
  rewrite E in Hi. rewrite Hi in Hd.
  destruct (complain_next step complain_zero) as [i d]. cbn in Hi, Hd.
  subst i d. reflexivity.
Qed.

Lemma plugin_relief_emitting level c msg :
  interval c <> 0 ->
  plugin_relief level c msg
  = ({| interval := 0; delay := delay c |}, [(level, format_message msg)]).
Proof.
  intros Hne. unfold plugin_relief.
  destruct (interval c =? 0) eqn:E; [apply Z.eqb_eq in E; contradiction | reflexivity].
Qed.

Lemma emitting_cycles_step step c cycle n :
  0 < step ->
  emitting_cycles step c cycle (S n)
  = (if 0 <? delay c then [] else [(cycle, interval (complain_next step c))])
    ++ emitting_cycles step (complain_next step c) (S cycle) n.
Proof.
  intros Hs. cbn [emitting_cycles].
  destruct (Z_lt_le_dec 0 (delay c)) as [Hd | Hd].
  - rewrite plugin_complain_suppressed by assumption.
    unfold complain_next. apply Z.ltb_lt in Hd. rewrite Hd. reflexivity.
  - rewrite plugin_complain_emitting by assumption.
    assert ((0 <? delay c) = false) as -> by (apply Z.ltb_ge; lia). reflexivity.
Qed.

Lemma emitting_cycles_app step n m :
  0 < step ->
  forall c cycle,
    emitting_cycles step c cycle (n + m)
    = emitting_cycles step c cycle n
      ++ emitting_cycles step (complain_steps step n c) (cycle + n) m.
Proof.
  intros Hs. induction n as [| n IH]; intros c cycle.
  - cbn. rewrite Nat.add_0_r. reflexivity.
  - change (S n + m)%nat with (S (n + m)).
    rewrite !emitting_cycles_step by assumption.
    rewrite IH, <- app_assoc. cbn [complain_steps].
    replace (S cycle + n)%nat with (cycle + S n)%nat by lia. reflexivity.
Qed.

Lemma emitting_cycles_drain step (d : nat) :
  0 < step ->
  forall c cycle, delay c = Z.of_nat d -> emitting_cycles step c cycle d = [].
Proof.
  intros Hs. induction d as [| d IH]; intros c cycle Hd; [reflexivity |].
  rewrite emitting_cycles_step by assumption.
  assert ((0 <? delay c) = true) as E by (apply Z.ltb_lt; lia).
  rewrite E. cbn [app]. apply IH. unfold complain_next. rewrite E. cbn. lia.
Qed.

(** The whole sequence below the ceiling: the [k]-th line (counting from 0) is
    written at cycle [2^k + k - 1] and leaves the interval at [step * 2^k]
    and as many suppressed calls ahead as [2^k]. *)
Lemma backoff_closed_form step (k : nat) :
  0 < step -> step * 2 ^ Z.of_nat k <= 86400 ->
  complain_steps step (2 ^ k + k) complain_zero
  = {| interval := step * 2 ^ Z.of_nat k; delay := 2 ^ Z.of_nat k |}
  /\ emitting_cycles step complain_zero 0 (2 ^ k + k)
     = map (fun j => ((2 ^ j + j - 1)%nat, step * 2 ^ Z.of_nat j)) (seq 0 (S k)).
Proof.
  intros Hs. induction k as [| k IH]; intros Hk.
  - cbn [Nat.pow Nat.add seq map Z.of_nat] in *. rewrite Z.pow_0_r, Z.mul_1_r in *.
    cbn [emitting_cycles complain_steps].
    pose proof (plugin_complain_first step 3 "failed"%string Hs) as Hfirst.
    rewrite (Z.min_l step 86400) in Hfirst by lia.
    rewrite (Z.div_same step) in Hfirst by lia.
    pose proof (plugin_complain_emitting step 3 complain_zero "failed"%string Hs
                  (Z.le_refl 0)) as Hemit.
    assert (complain_next step complain_zero = {| interval := step; delay := 1 |})
      as Hc by congruence.
    rewrite Hfirst. split; [exact Hc | reflexivity].
  - rewrite Nat2Z.inj_succ, Z.pow_succ_r in * by lia.
    assert (0 < 2 ^ Z.of_nat k) as Hpow by (apply Z.pow_pos_nonneg; lia).
    destruct IH as [IHs IHe]; [nia |].
    replace (2 ^ S k + S k)%nat with ((2 ^ k + k) + (2 ^ k + 1))%nat
      by (cbn [Nat.pow]; lia).
    set (ck := {| interval := step * 2 ^ Z.of_nat k; delay := 2 ^ Z.of_nat k |}) in *.
    assert (delay ck = Z.of_nat (2 ^ k)) as Hdk
        by (cbn; rewrite Nat2Z.inj_pow; reflexivity).
    set (c0 := {| interval := interval ck; delay := 0 |}).
    assert (in_range c0) as Hr0 by (split; cbn; nia).
    assert (complain_next step c0
            = {| interval := step * (2 * 2 ^ Z.of_nat k);
                 delay := 2 * 2 ^ Z.of_nat k |}) as Hnext.
    { pose proof (complain_next_interval step c0 Hs Hr0 (Z.le_refl 0)) as Hi.
      pose proof (complain_next_delay step c0 (Z.le_refl 0)) as Hd.
      cbn [interval c0 ck] in Hi.
      assert ((step * 2 ^ Z.of_nat k <? step) = false) as E
          by (apply Z.ltb_ge; nia).
      rewrite E, Z.min_l in Hi by nia.
      rewrite Hi in Hd.
      replace (2 * (step * 2 ^ Z.of_nat k)) with (2 * 2 ^ Z.of_nat k * step) in Hd
        by lia.
      rewrite Z.div_mul in Hd by lia.
      destruct (complain_next step c0) as [i d]. cbn [interval delay] in Hi, Hd.
      subst i d. f_equal; lia. }
    split.
    + rewrite complain_steps_add, IHs, complain_steps_add.
      rewrite (complain_drain step (2 ^ k) ck Hdk).
      cbn [complain_steps]. exact Hnext.
    + rewrite emitting_cycles_app, IHe, IHs by assumption.
      rewrite emitting_cycles_app by assumption.
      rewrite (emitting_cycles_drain step (2 ^ k) Hs ck _ Hdk).
      rewrite (complain_drain step (2 ^ k) ck Hdk). fold c0.
      rewrite emitting_cycles_step by assumption.
      cbn [delay c0 Z.ltb Z.compare emitting_cycles app]. rewrite Hnext.
      cbn [interval].
      rewrite (seq_S (S k)), map_app. cbn [map Nat.add].
      f_equal. f_equal. f_equal; [cbn [Nat.pow]; lia |].
      rewrite Nat2Z.inj_succ, Z.pow_succ_r by lia. reflexivity.
Qed.

(** C1 (as amended): for a zero-initialised record and a positive base step
    [step], consecutive [plugin_complain] calls never abort and follow the
    backoff sequence.  The first call writes a line and leaves
    [interval = min step 86400] and [delay = interval / step], which is
    [interval = step], [delay = 1] whenever [step <= 86400]; a call with
    [delay > 0] only decrements [delay] and writes nothing; a call with
    [delay = 0] and [interval >= step] doubles [interval] up to the ceiling
    86400, sets [delay = interval / step] and writes a line.  As long as
    [step * 2^k] is within the ceiling, the lines written in the first
    [2^k + k] cycles are those of the cycles [2^j + j - 1] for [j = 0 .. k],
    the [j]-th leaving [interval = step * 2^j]; with [step = 10] the first
    twelve cycles write at cycles 0, 2, 5, 10, leaving intervals 10, 20, 40,
    80. *)
Theorem complain_backoff_sequence (step : Z) (Hstep : 0 < step) :
  (forall level msg,
      plugin_complain step level complain_zero msg
      = Some ({| interval := Z.min step 86400; delay := Z.min step 86400 / step |},
              [(level, format_message msg)]))
  /\ (step <= 86400 ->
      forall level msg,
        plugin_complain step level complain_zero msg
        = Some ({| interval := step; delay := 1 |}, [(level, format_message msg)]))
  /\ (forall n, exists c out, run step complain_zero (complain_calls n) = Some (c, out))
  /\ (forall n c out level msg,
        run step complain_zero (complain_calls n) = Some (c, out) ->
        (0 < delay c ->
         plugin_complain step level c msg
         = Some ({| interval := interval c; delay := delay c - 1 |}, []))
        /\ (delay c = 0 -> step <= interval c ->
            plugin_complain step level c msg
            = Some ({| interval := Z.min (2 * interval c) 86400;
                       delay := Z.min (2 * interval c) 86400 / step |},
                    [(level, format_message msg)])))
  /\ (forall k : nat,
        step * 2 ^ Z.of_nat k <= 86400 ->
        emitting_cycles step complain_zero 0 (2 ^ k + k)
        = map (fun j => ((2 ^ j + j - 1)%nat, step * 2 ^ Z.of_nat j))
            (seq 0 (k + 1)))
  /\ emitting_cycles 10 complain_zero 0 12
     = [(0%nat, 10); (2%nat, 20); (5%nat, 40); (10%nat, 80)].
Proof.
  assert (forall c level msg, in_range c -> delay c = 0 ->
            plugin_complain step level c msg
            = Some ({| interval := interval (complain_next step c);
                       delay := interval (complain_next step c) / step |},
                    [(level, format_message msg)])) as Hemit.
  { intros c level msg Hr Hd.
    rewrite plugin_complain_emitting by lia.
    rewrite <- complain_next_delay by lia.
    destruct (complain_next step c); reflexivity. }
  assert (forall level msg,
      plugin_complain step level complain_zero msg
      = Some ({| interval := Z.min step 86400; delay := Z.min step 86400 / step |},
              [(level, format_message msg)])) as Hfirst.
  { intros level msg. apply plugin_complain_first. exact Hstep. }
  split; [exact Hfirst |]. split; [| split; [| split; [| split]]].
  - intros Hle level msg. rewrite Hfirst.
    rewrite Z.min_l by lia. rewrite Z.div_same by lia. reflexivity.
  - intros n. apply run_total. exact Hstep.
  - intros n c out level msg Hrun. split.
    + intros Hd. apply plugin_complain_suppressed. exact Hd.
    + intros Hd Hge.
      assert (in_range c) as Hr
          by (apply (run_in_range step _ Hstep _ _ _ complain_zero_in_range Hrun)).
      rewrite Hemit by assumption.
      rewrite complain_next_interval by (assumption || lia).
      assert ((interval c <? step) = false) as -> by (apply Z.ltb_ge; lia).
      reflexivity.
  - intros k Hk. rewrite Nat.add_1_r.
    apply (backoff_closed_form step k Hstep Hk).
  - vm_compute. reflexivity.
Qed.

(** The sequence at the default step 10, and at a step of one hour. *)
Lemma complain_backoff_sequence_witness :
  0 < 10
  /\ plugin_complain 10 3 complain_zero "failed"
     = Some ({| interval := 10; delay := 1 |}, [(3, format_message "failed")])
  /\ state_after 3600 complain_zero (complain_calls 2)
     = Some {| interval := 3600; delay := 0 |}.
Proof.
  split; [reflexivity |]. split.
  - destruct (complain_backoff_sequence 10 eq_refl) as (_ & H & _).
    apply H. discriminate.
  - reflexivity.
Defined.

(** C1 (as stated) fails: the doubling is cut at the ceiling.  With the
    default step 10, the call made at cycle 16397 finds [delay = 0] and
    [interval = 81920 >= 10] and leaves [interval = 86400], not 163840; and
    with a step above the ceiling (100000) the first call leaves
    [interval = 86400] and [delay = 0], not [interval = S] and [delay = 1]. *)
Lemma complain_doubling_counterexample :
  state_after 10 complain_zero (complain_calls 16397)
  = Some {| interval := 81920; delay := 0 |}
  /\ plugin_complain 10 3 {| interval := 81920; delay := 0 |} "failed"
     = Some ({| interval := 86400; delay := 8640 |}, [(3, format_message "failed")])
  /\ 86400 <> 2 * 81920
  /\ plugin_complain 100000 3 complain_zero "failed"
     = Some ({| interval := 86400; delay := 0 |}, [(3, format_message "failed")]).
Proof.
  split; [vm_compute; reflexivity |].
  split; [vm_compute; reflexivity |].
  split; [discriminate | vm_compute; reflexivity].
Qed.

(** C6: with a positive base step every sequence of complain and relief calls
    made from the zero record runs to its end, and no record reached that way
    (in particular none left by a [plugin_complain] call) has an interval
    above 86400; from any such record, consecutive complaints bring the
    interval to exactly 86400 and it stays there. *)
Theorem complain_interval_ceiling (step : Z) (Hstep : 0 < step) :
  (forall ks, exists c out, run step complain_zero ks = Some (c, out))
  /\ (forall ks c out, run step complain_zero ks = Some (c, out) -> interval c <= 86400)
  /\ (forall c level msg,
        reachable step c ->
        exists c' out,
          plugin_complain step level c msg = Some (c', out) /\ interval c' <= 86400)
  /\ (forall c,
        reachable step c ->
        exists N, forall n, (N <= n)%nat ->
          exists c' out,
            run step c (complain_calls n) = Some (c', out) /\ interval c' = 86400).
Proof.
  split; [| split; [| split]].
  - intros ks. apply run_total. exact Hstep.
  - intros ks c out Hrun.
    apply (run_in_range step ks Hstep _ _ _ complain_zero_in_range Hrun).
  - intros c level msg Hc.
    destruct (plugin_complain_state step level c msg Hstep) as [out Hout].
    exists (complain_next step c), out. split; [exact Hout |].
    apply complain_next_in_range; [exact Hstep |].
    apply (reachable_in_range step); assumption.
  - intros c Hc. pose proof (reachable_in_range step c Hstep Hc) as Hr.
    destruct (complain_reaches_ceiling step c Hstep Hr) as [N HN].
    exists N. intros n Hn.
    destruct (run_complain_calls step n Hstep c) as [out Hout].
    exists (complain_steps step n c), out. split; [exact Hout |].
    replace n with (N + (n - N))%nat by lia.
    rewrite complain_steps_add.
    apply complain_saturated_stays;
      [exact Hstep | apply complain_steps_in_range; assumption | exact HN].
Qed.

(** At the default step 10: a complaint, a relief and 40000 further
    complaints leave the interval at the ceiling. *)
Lemma complain_interval_ceiling_witness :
  0 < 10
  /\ (exists c out,
        run 10 complain_zero (Complain 3 "failed" :: Relief 6 "ok" :: complain_calls 40000)
        = Some (c, out))
  /\ state_after 10 complain_zero (complain_calls 16398)
     = Some {| interval := 86400; delay := 8640 |}.
Proof.
  split; [reflexivity |]. split.
  - destruct (complain_interval_ceiling 10 eq_refl) as (H & _). apply H.
  - vm_compute. reflexivity.
Defined.

(** C7: a relief call on a record with [interval = 0] writes nothing and
    changes nothing; on a record with [interval <> 0] it resets the interval
    to 0 and writes exactly one line.  Hence a relief that follows a relief
    writes nothing, and relief calls that follow one another write at most one
    line in all. *)
Theorem relief_emits_once (level : Z) (c : complain_t) (msg : string) :
  (interval c = 0 -> plugin_relief level c msg = (c, []))
  /\ (interval c <> 0 ->
      plugin_relief level c msg
      = ({| interval := 0; delay := delay c |}, [(level, format_message msg)]))
  /\ (forall level' msg',
        plugin_relief level' (fst (plugin_relief level c msg)) msg'
        = (fst (plugin_relief level c msg), []))
  /\ (forall step ks c' out,
        forallb is_relief ks = true ->
        run step c ks = Some (c', out) ->
        (List.length out <= 1)%nat).
Proof.
  assert (forall lv (c0 : complain_t) m,
            interval c0 = 0 -> plugin_relief lv c0 m = (c0, [])) as Hzero.
  { intros lv c0 m H0. unfold plugin_relief. rewrite H0. reflexivity. }
  assert (forall lv (c0 : complain_t) m,
            interval (fst (plugin_relief lv c0 m)) = 0) as Hafter.
  { intros lv c0 m. unfold plugin_relief.
    destruct (interval c0 =? 0) eqn:E; [apply Z.eqb_eq in E; exact E | reflexivity]. }
  split; [apply Hzero |]. split; [| split].
  - apply plugin_relief_emitting.
  - intros level' msg'. apply Hzero, Hafter.
  - intros step ks. revert c.
    assert (forall c0 c' out, interval c0 = 0 -> forallb is_relief ks = true ->
              run step c0 ks = Some (c', out) -> out = []) as Hquiet.
    { induction ks as [| k ks IH]; intros c0 c' out H0 Hall Hrun; cbn in *.
      - injection Hrun as _ <-. reflexivity.
      - destruct k as [lv m | lv m]; [discriminate |]. cbn in *.
        rewrite (Hzero lv c0 m H0) in Hrun.
        destruct (run step c0 ks) as [[c2 out2] |] eqn:Er; [| discriminate].
        injection Hrun as _ <-. cbn. apply (IH c0 c2 out2 H0 Hall Er). }
    intros c0 c' out Hall Hrun. destruct ks as [| k ks]; cbn in *.
    + injection Hrun as _ <-. cbn. lia.
    + destruct k as [lv m | lv m]; [discriminate |]. cbn in *.
      destruct (plugin_relief lv c0 m) as [c1 out1] eqn:E1.
      destruct (run step c1 ks) as [[c2 out2] |] eqn:Er; [| discriminate].
      injection Hrun as _ <-.
      assert (interval c1 = 0) as H1.
      { pose proof (Hafter lv c0 m) as H. rewrite E1 in H. exact H. }
      assert (forallb is_relief ks = true) as Hall' by exact Hall.
      assert (out2 = []) as ->.
      { clear -Hzero H1 Hall' Er. revert c1 c2 out2 H1 Er.
        induction ks as [| k ks IH]; intros c1 c2 out2 H1 Er; cbn in *.
        - injection Er as _ <-. reflexivity.
        - destruct k as [lv' m' | lv' m']; [discriminate |]. cbn in *.
          rewrite (Hzero lv' c1 m' H1) in Er.
          destruct (run step c1 ks) as [[c3 out3] |] eqn:Er'; [| discriminate].
          injection Er as _ <-. cbn. apply (IH Hall' c1 c3 out3 H1 Er'). }
      rewrite app_nil_r. unfold plugin_relief in E1.
      destruct (interval c0 =? 0); injection E1 as _ <-; cbn; lia.
Qed.

(** C10: a relief call that writes a line changes the interval only: the
    delay is kept.  So when relief comes with [delay = d > 0], each of the
    next [d] complaints of the call site is still suppressed (whatever the
    step); only the one after them writes a line again, starting over from
    the base step. *)
Theorem relief_keeps_delay (step level : Z) (c : complain_t) (msg : string)
    (Hi : interval c <> 0) (Hd : 0 < delay c) :
  let c1 := fst (plugin_relief level c msg) in
  snd (plugin_relief level c msg) = [(level, format_message msg)]
  /\ interval c1 = 0
  /\ delay c1 = delay c
  /\ (forall k, (k <= Z.to_nat (delay c))%nat ->
        run step c1 (complain_calls k)
        = Some ({| interval := 0; delay := delay c - Z.of_nat k |}, []))
  /\ (0 < step ->
      forall lv m,
        run step c1 (complain_calls (Z.to_nat (delay c)) ++ [Complain lv m])
        = Some ({| interval := Z.min step 86400; delay := Z.min step 86400 / step |},
                [(lv, format_message m)])).
Proof.
  intros c1.
  assert (plugin_relief level c msg
          = ({| interval := 0; delay := delay c |}, [(level, format_message msg)]))
    as Hrel by (apply plugin_relief_emitting; exact Hi).
  subst c1. rewrite Hrel. cbn [fst snd interval delay].
  assert (forall k d, (k <= Z.to_nat d)%nat ->
            run step {| interval := 0; delay := d |} (complain_calls k)
            = Some ({| interval := 0; delay := d - Z.of_nat k |}, [])) as Hquiet.
  { induction k as [| k IH]; intros d Hk.
    - cbn. rewrite Z.sub_0_r. reflexivity.
    - change (complain_calls (S k)) with (Complain 3 "failed" :: complain_calls k).
      cbn [run do_call]. rewrite plugin_complain_suppressed by (cbn; lia).
      cbn [interval delay]. rewrite IH by lia. cbn [app].
      do 3 f_equal. lia. }
  split; [reflexivity |]. split; [reflexivity |]. split; [reflexivity |].
  split; [intros k Hk; apply Hquiet; exact Hk |].
  intros Hs lv m.
  assert (forall ks ks' c0 c2 out2,
            run step c0 ks = Some (c2, out2) ->
            run step c0 (ks ++ ks')
            = match run step c2 ks' with
              | None => None
              | Some (c3, out3) => Some (c3, out2 ++ out3)
              end) as Happ.
  { induction ks as [| k ks IH]; intros ks' c0 c2 out2 Hrun; cbn in *.
    - injection Hrun as <- <-. destruct (run step c0 ks') as [[? ?] |]; reflexivity.
    - destruct (do_call step c0 k) as [[c1 out1] |]; [| discriminate].
      destruct (run step c1 ks) as [[c3 out3] |] eqn:Er; [| discriminate].
      injection Hrun as <- <-. rewrite (IH ks' c1 c3 out3 Er).
      destruct (run step c3 ks') as [[? ?] |]; [| reflexivity].
      rewrite app_assoc. reflexivity. }
  rewrite (Happ _ _ _ _ _ (Hquiet _ _ (Nat.le_refl _))).
  rewrite Z2Nat.id, Z.sub_diag by lia.
  cbn [run do_call].
  change {| interval := 0; delay := 0 |} with complain_zero.
  rewrite (plugin_complain_first step lv m Hs). reflexivity.
Qed.

(** Relief in the middle of a suppression of two: the two complaints that
    follow stay silent. *)
Lemma relief_keeps_delay_witness :
  interval {| interval := 20; delay := 2 |} <> 0
  /\ 0 < delay {| interval := 20; delay := 2 |}
  /\ run 10 (fst (plugin_relief 6 {| interval := 20; delay := 2 |} "ok")) (complain_calls 2)
     = Some ({| interval := 0; delay := 0 |}, []).
Proof.
  assert (interval {| interval := 20; delay := 2 |} <> 0) as Hi by discriminate.
  assert (0 < delay {| interval := 20; delay := 2 |}) as Hd by reflexivity.
  split; [exact Hi |]. split; [exact Hd |].
  destruct (relief_keeps_delay 10 6 _ "ok" Hi Hd) as (_ & _ & _ & H & _).
  apply (H 2%nat). cbn. lia.
Defined.

End ComplainClaims.

(** ** The registries *)

Section RegistryFacts.
Import LList.
Context {V : Type}.

Implicit Types (l : llist_t V) (reg : option (llist_t V)) (name : string).

Lemma search_from_none l name pos :
  search_from l name pos = None <-> ~ In name (map key l).
Proof.
  revert pos. induction l as [| e l IH]; intros pos; cbn.
  - split; [intros _ [] | reflexivity].
  - destruct (String.eqb name (key e)) eqn:E.
    + apply String.eqb_eq in E. split; [discriminate | intros H; exfalso; auto].
    + apply String.eqb_neq in E. rewrite IH. split.
      * intros H [H' | H']; [congruence | contradiction].
      * intros H H'. apply H. right. exact H'.
Qed.

Lemma search_from_some l name pos i le :
  search_from l name pos = Some (i, le) ->
  (pos <= i)%nat /\ nth_error l (i - pos) = Some le /\ key le = name.
Proof.
  revert pos. induction l as [| e l IH]; intros pos; cbn; [discriminate |].
  destruct (String.eqb name (key e)) eqn:E.
  - intros H. injection H as <- <-. apply String.eqb_eq in E.
    rewrite Nat.sub_diag. cbn. auto.
  - intros H. destruct (IH _ H) as (Hle & Hnth & Hk).
    split; [lia |]. split; [| exact Hk].
    replace (i - pos)%nat with (S (i - S pos)) by lia. exact Hnth.
Qed.

Lemma search_from_in l name pos :
  In name (map key l) -> exists i le, search_from l name pos = Some (i, le).
Proof.
  intros Hin. destruct (search_from l name pos) as [[i le] |] eqn:E; [eauto |].
  apply search_from_none in E. contradiction.
Qed.

Lemma set_value_keys l i (v : V) : map key (set_value l i v) = map key l.
Proof.
  revert i. induction l as [| e l IH]; intros [| i]; cbn; try reflexivity.
  rewrite IH. reflexivity.
Qed.

Lemma set_value_length l i (v : V) : List.length (set_value l i v) = List.length l.
Proof. rewrite <- (length_map key), set_value_keys, length_map. reflexivity. Qed.

(** After [le->value = v] a search for the same name finds the same position,
    now holding [v]; a search for another name is not affected. *)
Lemma search_from_set_value_same l name pos i le (v : V) :
  search_from l name pos = Some (i, le) ->
  search_from (set_value l (i - pos) v) name pos
  = Some (i, {| key := key le; value := v |}).
Proof.
  revert pos. induction l as [| e l IH]; intros pos; cbn; [discriminate |].
  destruct (String.eqb name (key e)) eqn:E.
  - intros H. injection H as <- <-. rewrite Nat.sub_diag. cbn. rewrite E. reflexivity.
  - intros H. destruct (search_from_some _ _ _ _ _ H) as (Hle & _).
    replace (i - pos)%nat with (S (i - S pos)) by lia. cbn. rewrite E.
    apply IH. exact H.
Qed.

Lemma search_from_set_value_other l name other pos i le (v : V) :
  search_from l name pos = Some (i, le) -> other <> name ->
  option_map (fun r => value (snd r)) (search_from (set_value l (i - pos) v) other pos)
  = option_map (fun r => value (snd r)) (search_from l other pos).
Proof.
  revert pos. induction l as [| e l IH]; intros pos; cbn; [discriminate |].
  destruct (String.eqb name (key e)) eqn:E.
  - intros H Hne. injection H as <- <-. rewrite Nat.sub_diag. cbn.
    apply String.eqb_eq in E. subst name.
    apply String.eqb_neq in Hne. rewrite Hne. reflexivity.
  - intros H Hne. destruct (search_from_some _ _ _ _ _ H) as (Hle & _).
    replace (i - pos)%nat with (S (i - S pos)) by lia. cbn.
    destruct (String.eqb other (key e)); [reflexivity |].
    apply IH; assumption.
Qed.

Lemma search_from_append_new l name pos (v : V) :
  ~ In name (map key l) ->
  search_from (llist_append l {| key := name; value := v |}) name pos
  = Some ((pos + List.length l)%nat, {| key := name; value := v |}).
Proof.
  revert pos. unfold llist_append.
  induction l as [| e l IH]; intros pos Hnin; cbn.
  - rewrite String.eqb_refl, Nat.add_0_r. reflexivity.
  - destruct (String.eqb name (key e)) eqn:E.
    + apply String.eqb_eq in E. exfalso. apply Hnin. left. auto.
    + rewrite IH by (intros H; apply Hnin; right; exact H).
      f_equal. f_equal. lia.
Qed.

(** What a registration does, case by case. *)
Lemma register_callback_cases h reg name (cb : V) :
  let '(status, reg', h') := register_callback h reg name cb in
  (status = -1 /\ keys reg' = keys reg)
  \/ (status = 0 /\ ~ In name (keys reg)
      /\ reg' = Some (llist_append (entries reg) {| key := name; value := cb |}))
  \/ (status = 0 /\ h' = h /\
      exists l i le, reg = Some l /\ search_from l name 0 = Some (i, le)
                     /\ reg' = Some (set_value l i cb)).
Proof.
  unfold register_callback, llist_create, llentry_create, malloc.
  destruct reg as [l |].
  - cbn. destruct (search_from l name 0) as [[i le] |] eqn:E.
    + right. right. split; [reflexivity |]. split; [reflexivity |]. eauto 7.
    + apply search_from_none in E.
      destruct h as [| [] h]; cbn; [right; left | right; left | left]; auto.
  - assert (~ In name (@keys V None)) as Hnin by (intros []).
    destruct h as [| [] h]; cbn; [right; left; auto | | left; auto].
    destruct h as [| [] h]; cbn; [right; left | right; left | left]; auto.
Qed.

(** Names stay unique in a registry. *)
Lemma registry_NoDup reg : registry reg -> NoDup (keys reg).
Proof.
  induction 1 as [| h reg name cb _ IH]; [constructor |].
  pose proof (register_callback_cases h reg name cb) as Hc.
  destruct (register_callback h reg name cb) as [[status reg'] h']. cbn.
  destruct Hc as [(_ & ->) | [(_ & Hnin & ->) | (_ & _ & l & i & le & -> & _ & ->)]].
  - exact IH.
  - cbn. unfold llist_append. rewrite map_app. cbn.
    assert (keys reg = map key (entries reg)) as Hk by (destruct reg; reflexivity).
    rewrite <- Hk.
    apply NoDup_app; [exact IH | repeat constructor; intros [] | ].
    intros a Ha [<- | []]. contradiction.
  - cbn in *. rewrite set_value_keys. exact IH.
Qed.

Lemma NoDup_count_occ_1 (ks : list string) name :
  NoDup ks -> In name ks -> count_occ string_dec ks name = 1%nat.
Proof.
  intros Hnd Hin. rewrite (NoDup_count_occ string_dec) in Hnd.
  specialize (Hnd name). apply (count_occ_In string_dec) in Hin. lia.
Qed.

End RegistryFacts.

Section RegistryClaims.
Import LList.
Context {V : Type}.

Implicit Types (l : llist_t V) (reg : option (llist_t V)) (name : string).

Lemma register_callback_existing h l name i le (cb : V) :
  search_from l name 0 = Some (i, le) ->
  register_callback h (Some l) name cb = (0, Some (set_value l i cb), h).
Proof. intros E. unfold register_callback. cbn. rewrite E. reflexivity. Qed.

(** A registration that succeeds leaves the name in the registry, bound to
    the callback just given. *)
Lemma register_callback_stored h reg name (cb : V) :
  fst (fst (register_callback h reg name cb)) = 0 ->
  exists l1 i,
    snd (fst (register_callback h reg name cb)) = Some l1
    /\ search_from l1 name 0 = Some (i, {| key := name; value := cb |}).
Proof.
  pose proof (register_callback_cases h reg name cb) as Hc.
  destruct (register_callback h reg name cb) as [[status reg'] h1]. cbn.
  intros Hs.
  destruct Hc as [(Hf & _) | [(_ & Hnin & ->) | (_ & _ & l & i & le & -> & E & ->)]].
  - lia.
  - eexists _, _. split; [reflexivity |].
    assert (keys reg = map key (entries reg)) as Hk by (destruct reg; reflexivity).
    rewrite Hk in Hnin. apply (search_from_append_new _ _ 0%nat). exact Hnin.
  - exists (set_value l i cb), i. split; [reflexivity |].
    pose proof (search_from_set_value_same l name 0 i le cb E) as H.
    destruct (search_from_some _ _ _ _ _ E) as (_ & _ & Hk).
    rewrite Nat.sub_0_r, Hk in H. exact H.
Qed.

(** C3: in a phase registry, registering [name] with [c1] and then with [c2]
    (the first registration succeeding, which can only fail for want of
    memory) always succeeds the second time, without allocating, and leaves
    exactly one entry for [name]; its callback is [c2]; the names are in the
    same iteration order as after the first registration, [name] at the
    position it had then; the number of entries is the same; the other names
    keep their callbacks. *)
Theorem register_twice_overwrites (h h' : heap) reg name (c1 c2 : V)
    (Hreg : registry reg)
    (Hfirst : fst (fst (register_callback h reg name c1)) = 0) :
  let reg1 := snd (fst (register_callback h reg name c1)) in
  let reg2 := snd (fst (register_callback h' reg1 name c2)) in
  fst (fst (register_callback h' reg1 name c2)) = 0
  /\ snd (register_callback h' reg1 name c2) = h'
  /\ lookup reg1 name = Some c1
  /\ lookup reg2 name = Some c2
  /\ count_occ string_dec (keys reg2) name = 1%nat
  /\ keys reg2 = keys reg1
  /\ (exists pos,
        option_map fst (llist_search reg1 name) = Some pos
        /\ option_map fst (llist_search reg2 name) = Some pos)
  /\ List.length (entries reg2) = List.length (entries reg1)
  /\ (forall other, other <> name -> lookup reg2 other = lookup reg1 other).
Proof.
  intros reg1 reg2.
  assert (registry reg1) as Hreg1 by (apply registry_register; exact Hreg).
  assert (registry reg2) as Hreg2 by (apply registry_register; exact Hreg1).
  destruct (register_callback_stored h reg name c1 Hfirst) as (l1 & i & E1 & Es).
  fold reg1 in E1. subst reg2. rewrite E1 in *.
  rewrite (register_callback_existing h' l1 name i _ c2 Es) in *.
  cbn [fst snd] in *.
  pose proof (search_from_set_value_same l1 name 0 i _ c2 Es) as Es2.
  rewrite Nat.sub_0_r in Es2. cbn [key] in Es2.
  split; [reflexivity |]. split; [reflexivity |].
  split; [unfold lookup; cbn; rewrite Es; reflexivity |].
  split; [unfold lookup; cbn; rewrite Es2; reflexivity |].
  split.
  { apply NoDup_count_occ_1; [apply registry_NoDup; exact Hreg2 |].
    cbn. rewrite set_value_keys.
    destruct (in_dec string_dec name (map key l1)) as [Hin | Hnin]; [exact Hin |].
    apply (search_from_none l1 name 0) in Hnin. congruence. }
  split; [cbn; apply set_value_keys |].
  split; [exists i; cbn; rewrite Es, Es2; auto |].
  split; [cbn; apply set_value_length |].
  intros other Hne. unfold lookup. cbn.
  pose proof (search_from_set_value_other l1 name other 0 i _ c2 Es Hne) as Ho.
  rewrite Nat.sub_0_r in Ho.
  destruct (search_from (set_value l1 i c2) other 0) as [[? ?] |];
    destruct (search_from l1 other 0) as [[? ?] |]; cbn in Ho; congruence.
Qed.

End RegistryClaims.

(** A registry holding [cpu] and [load]: registering [cpu] twice more keeps it
    in front of [load], with the callback given last. *)
Lemma register_twice_overwrites_witness :
  LList.registry
    (snd (fst (LList.register_callback []
       (snd (fst (LList.register_callback [] None "cpu" 1%nat))) "load" 7%nat)))
  /\ fst (fst (LList.register_callback []
       (Some [ {| LList.key := "cpu"; LList.value := 1%nat |};
               {| LList.key := "load"; LList.value := 7%nat |} ]) "cpu" 2%nat)) = 0
  /\ LList.lookup
       (snd (fst (LList.register_callback []
          (snd (fst (LList.register_callback []
             (Some [ {| LList.key := "cpu"; LList.value := 1%nat |};
                     {| LList.key := "load"; LList.value := 7%nat |} ]) "cpu" 2%nat)))
          "cpu" 3%nat))) "cpu"
     = Some 3%nat
  /\ LList.keys
       (snd (fst (LList.register_callback []
          (snd (fst (LList.register_callback []
             (Some [ {| LList.key := "cpu"; LList.value := 1%nat |};
                     {| LList.key := "load"; LList.value := 7%nat |} ]) "cpu" 2%nat)))
          "cpu" 3%nat)))
     = ["cpu"%string; "load"%string].
Proof.
  assert (LList.registry
    (snd (fst (LList.register_callback []
       (snd (fst (LList.register_callback [] None "cpu" 1%nat))) "load" 7%nat))))
    as Hreg by (do 2 apply LList.registry_register; apply LList.registry_null).
  split; [exact Hreg |]. split; [reflexivity |].
  pose proof (register_twice_overwrites [] [] _ "cpu" 2%nat 3%nat Hreg eq_refl)
    as (_ & _ & _ & Hlookup & _ & Hkeys & _).
  split; [exact Hlookup | exact (eq_trans Hkeys eq_refl)].
Defined.

(** ** The dispatcher and the read sweep *)

Section PluginFacts.
Import LList Plugin.
Context {world value_list_t : Type}.

Implicit Types (st : plugin_state world value_list_t) (d : data_set_t).

Lemma write_sweep_spec (le : list (llentry_t (write_cb world value_list_t)))
    d (vl : value_list_t) (w : world) :
  write_sweep le d vl w
  = (run_writers le d vl w, map (fun e => (key e, d, vl)) le).
Proof.
  unfold run_writers, write_cb in *. revert w.
  induction le as [| e le IH]; intros w; [reflexivity |].
  cbn [write_sweep map fold_left]. unfold write_cb.
  destruct (value e d vl w) as [w1 status].
  cbn [fst]. rewrite IH. reflexivity.
Qed.

Lemma lookup_search {V : Type} (reg : option (llist_t V)) name :
  lookup reg name = option_map (fun r => value (snd r)) (llist_search reg name).
Proof. unfold lookup. destruct (llist_search reg name) as [[i le] |]; reflexivity. Qed.

(** With memory to spare a registration succeeds, and the names of the
    registry grow by the new name, at the end, unless it is there already. *)
Lemma register_callback_plentiful {V : Type} (reg : option (llist_t V)) name (cb : V) :
  exists reg',
    register_callback [] reg name cb = (0, reg', [])
    /\ keys reg' = add_name (keys reg) name.
Proof.
  pose proof (register_callback_cases [] reg name cb) as Hc.
  assert (fst (fst (register_callback [] reg name cb)) = 0
          /\ snd (register_callback [] reg name cb) = []) as [Hs Hh].
  { unfold register_callback, llist_create, llentry_create, malloc.
    destruct reg as [l |]; cbn; [| auto].
    destruct (search_from l name 0) as [[? ?] |]; auto. }
  destruct (register_callback [] reg name cb) as [[status reg'] h']. cbn in *.
  subst status h'. exists reg'. split; [reflexivity |]. unfold add_name.
  assert (keys reg = map key (entries reg)) as Hk by (destruct reg; reflexivity).
  destruct Hc as [(Hf & _) | [(_ & Hnin & ->) | (_ & _ & l & i & le & -> & E & ->)]].
  - lia.
  - destruct (in_dec string_dec name (keys reg)) as [Hin | _]; [contradiction |].
    cbn [keys]. unfold llist_append. rewrite map_app, <- Hk. reflexivity.
  - cbn [keys]. rewrite set_value_keys.
    destruct (in_dec string_dec name (map key l)) as [_ | Hnin]; [reflexivity |].
    apply (search_from_none l name 0) in Hnin. congruence.
Qed.

Lemma register_all_write_order (rs : list (registration world value_list_t)) :
  forall st,
    mem st = [] ->
    keys (list_write (snd (register_all st rs)))
    = fold_left add_name (writer_names rs) (keys (list_write st)).
Proof.
  induction rs as [| r rs IH]; intros st Hmem; [reflexivity |].
  cbn [register_all]. destruct (register st r) as [status st1] eqn:Er.
  specialize (IH st1).
  destruct (register_all st1 rs) as [statuses st2]. cbn [snd] in *.
  assert (mem st1 = []
          /\ keys (list_write st1)
             = fold_left add_name
                 (match r with RegWrite n _ => [n] | _ => [] end)
                 (keys (list_write st))) as [Hmem1 Hkeys1].
  { destruct st as [li lr lw ls ld m]. cbn in Hmem. subst m.
    destruct r as [n cb | n cb | n cb | n cb | d];
      unfold register, plugin_register_init, plugin_register_read,
        plugin_register_write, plugin_register_shutdown,
        plugin_register_data_set in Er;
      cbn [mem list_init list_read list_write list_shutdown list_data_set] in Er;
      [ destruct (register_callback_plentiful li n cb) as (reg' & E & Hk)
      | destruct (register_callback_plentiful lr n cb) as (reg' & E & Hk)
      | destruct (register_callback_plentiful lw n cb) as (reg' & E & Hk)
      | destruct (register_callback_plentiful ls n cb) as (reg' & E & Hk)
      | destruct (register_callback_plentiful ld (type d) d) as (reg' & E & Hk) ];
      rewrite E in Er; injection Er as _ <-;
      cbn [mem list_write fold_left]; split; auto. }
  rewrite (IH Hmem1), Hkeys1. cbn [writer_names flat_map].
  rewrite fold_left_app. reflexivity.
Qed.

Lemma register_keeps_null_write st (r : registration world value_list_t) :
  is_write_registration r = false ->
  list_write st = None ->
  list_write (snd (register st r)) = None.
Proof.
  intros Hr Hnull.
  destruct r as [n cb | n cb | n cb | n cb | d]; try discriminate; cbn;
    [ unfold plugin_register_init; destruct (register_callback (mem st) (list_init st) n cb) as [[? ?] ?]
    | unfold plugin_register_read; destruct (register_callback (mem st) (list_read st) n cb) as [[? ?] ?]
    | unfold plugin_register_shutdown; destruct (register_callback (mem st) (list_shutdown st) n cb) as [[? ?] ?]
    | unfold plugin_register_data_set; destruct (register_callback (mem st) (list_data_set st) (type d) d) as [[? ?] ?] ];
    exact Hnull.
Qed.

Lemma register_all_keeps_null_write (rs : list (registration world value_list_t)) :
  forall st,
    forallb (fun r => negb (is_write_registration r)) rs = true ->
    list_write st = None ->
    list_write (snd (register_all st rs)) = None.
Proof.
  induction rs as [| r rs IH]; intros st Hall Hnull; [exact Hnull |].
  cbn in Hall. apply andb_true_iff in Hall as [Hr Hall].
  apply negb_true_iff in Hr.
  cbn [register_all].
  pose proof (register_keeps_null_write st r Hr Hnull) as H1.
  destruct (register st r) as [status st1]. cbn [snd] in H1.
  specialize (IH st1 Hall H1).
  destruct (register_all st1 rs) as [statuses st2]. exact IH.
Qed.

End PluginFacts.

Section DispatchClaims.
Import LList Plugin.
Context {world value_list_t : Type}.

Implicit Types (st : plugin_state world value_list_t) (d : data_set_t).

(** C2: when a schema is registered for the type name and there is at least
    one write callback, [plugin_dispatch_values] returns 0 whatever the
    callbacks return, after invoking the callbacks of the write registry one
    after the other in its order, each with the schema and the value list;
    every name of the registry is invoked exactly once.  The order of the
    registry is the order of first registration. *)
Theorem dispatch_invokes_every_writer st (name : string) (vl : value_list_t)
    (w : world) (lw : llist_t (write_cb world value_list_t)) d
    (Hw : list_write st = Some lw) (Hne : lw <> [])
    (Hd : lookup (list_data_set st) name = Some d) :
  plugin_dispatch_values st name vl w
  = (0, run_writers lw d vl w, map (fun e => (key e, d, vl)) lw)
  /\ (registry (list_write st) ->
      forall e, In e lw ->
        count_occ string_dec
          (map (fun c => fst (fst c)) (snd (plugin_dispatch_values st name vl w)))
          (key e) = 1%nat)
  /\ (forall rs : list (registration world value_list_t),
        keys (list_write (snd (register_all (initial_state []) rs)))
        = first_registration_order (writer_names rs)).
Proof.
  assert (plugin_dispatch_values st name vl w
          = (0, run_writers lw d vl w, map (fun e => (key e, d, vl)) lw)) as Hrun.
  { unfold plugin_dispatch_values. rewrite Hw.
    rewrite lookup_search in Hd.
    destruct (llist_search (list_data_set st) name) as [[i le] |]; [| discriminate].
    cbn in Hd. injection Hd as ->.
    unfold llist_head. rewrite write_sweep_spec. reflexivity. }
  split; [exact Hrun |]. split.
  - intros Hreg e He. rewrite Hrun. cbn [snd]. rewrite map_map. cbn [fst].
    apply registry_NoDup in Hreg. rewrite Hw in Hreg. cbn [keys] in Hreg.
    apply NoDup_count_occ_1; [exact Hreg | apply in_map; exact He].
  - intros rs. apply register_all_write_order. reflexivity.
Qed.

(** C4 (as amended): while the write registry has not been created
    ([list_write] is still NULL), [plugin_dispatch_values] returns -1 and
    invokes nothing, whether or not a schema is registered for the type name.
    The registry is still NULL as long as no write registration has been
    made. *)
Theorem dispatch_without_write_registry st (name : string) (vl : value_list_t)
    (w : world) (Hnull : list_write st = None) :
  plugin_dispatch_values st name vl w = (-1, w, [])
  /\ (forall (rs : list (registration world value_list_t)) name' vl' w',
        forallb (fun r => negb (is_write_registration r)) rs = true ->
        plugin_dispatch_values (snd (register_all st rs)) name' vl' w'
        = (-1, w', [])).
Proof.
  split.
  - unfold plugin_dispatch_values. rewrite Hnull. reflexivity.
  - intros rs name' vl' w' Hall. unfold plugin_dispatch_values.
    rewrite (register_all_keeps_null_write rs st Hall Hnull). reflexivity.
Qed.

(** C5: when there are write callbacks but no schema is registered under the
    type name, [plugin_dispatch_values] returns -1, invokes no callback and
    leaves the world as it was. *)
Theorem dispatch_unknown_type st (name : string) (vl : value_list_t) (w : world)
    (lw : llist_t (write_cb world value_list_t))
    (Hw : list_write st = Some lw) (Hne : lw <> [])
    (Hnone : lookup (list_data_set st) name = None) :
  plugin_dispatch_values st name vl w = (-1, w, []).
Proof.
  unfold plugin_dispatch_values. rewrite Hw.
  rewrite lookup_search in Hnone.
  destruct (llist_search (list_data_set st) name) as [[i le] |];
    [discriminate | reflexivity].
Qed.

Lemma read_sweep_spec (loop : nat -> Z) (le : list (llentry_t (void_cb world))) :
  forall k w,
    read_sweep loop k le w
    = (run_callbacks (firstn (checks_passed loop k (List.length le)) le) w,
       map key (firstn (checks_passed loop k (List.length le)) le)).
Proof.
  unfold run_callbacks, void_cb in *.
  induction le as [| e le IH]; intros k w.
  - cbn. destruct (loop k =? 0); reflexivity.
  - cbn [read_sweep List.length checks_passed].
    destruct (loop k =? 0); [| reflexivity].
    cbn [negb firstn map fold_left]. unfold void_cb.
    destruct (value e w) as [w1 status]. cbn [fst].
    rewrite IH. reflexivity.
Qed.

Lemma checks_passed_le (loop : nat -> Z) (n : nat) :
  forall k j, loop (k + j)%nat <> 0 -> (checks_passed loop k n <= j)%nat.
Proof.
  induction n as [| n IH]; intros k j Hset; cbn; [lia |].
  destruct (loop k =? 0) eqn:E; [| lia].
  destruct j as [| j].
  - rewrite Nat.add_0_r in Hset. apply Z.eqb_eq in E. contradiction.
  - apply le_n_S. apply IH.
    replace (S k + j)%nat with (k + S j)%nat by lia. exact Hset.
Qed.

Lemma checks_passed_clear (loop : nat -> Z) (n : nat) :
  forall k i, (i < checks_passed loop k n)%nat -> loop (k + i)%nat = 0.
Proof.
  induction n as [| n IH]; intros k i Hi; cbn in Hi; [lia |].
  destruct (loop k =? 0) eqn:E; [| lia].
  destruct i as [| i].
  - rewrite Nat.add_0_r. apply Z.eqb_eq. exact E.
  - replace (k + S i)%nat with (S k + i)%nat by lia. apply IH. lia.
Qed.

(** C8: a read sweep invokes the callbacks of the read registry in order for
    as long as the checks of the flag, one before each callback, find it
    clear.  If the flag is set when the sweep begins nothing is invoked; if
    the [k]-th check finds it set, at most the [k] callbacks before it were
    invoked and none is invoked after it, whatever the flag shows later. *)
Theorem read_sweep_stops_on_cancellation (loop : nat -> Z) st (w : world) :
  let le := entries (list_read st) in
  let n := checks_passed loop 0 (List.length le) in
  plugin_read_all loop st w = (run_callbacks (firstn n le) w, map key (firstn n le))
  /\ (loop 0%nat <> 0 -> plugin_read_all loop st w = (w, []))
  /\ (forall k, loop k <> 0 ->
        (List.length (snd (plugin_read_all loop st w)) <= k)%nat)
  /\ (forall i, (i < List.length (snd (plugin_read_all loop st w)))%nat -> loop i = 0)
  /\ ((forall k, loop k = 0) ->
      snd (plugin_read_all loop st w) = keys (list_read st)).
Proof.
  intros le n.
  assert (plugin_read_all loop st w
          = (run_callbacks (firstn n le) w, map key (firstn n le))) as Hrun.
  { unfold plugin_read_all. subst n le.
    destruct (list_read st) as [l |]; [apply read_sweep_spec | reflexivity]. }
  assert (List.length (snd (plugin_read_all loop st w)) = n) as Hlen.
  { rewrite Hrun. cbn [snd]. rewrite length_map, length_firstn.
    assert (forall m k, (checks_passed loop k m <= m)%nat) as Hle.
    { induction m as [| m IHm]; intros k; cbn; [lia |].
      destruct (loop k =? 0); [apply le_n_S, IHm | lia]. }
    subst n. pose proof (Hle (List.length le) 0%nat). lia. }
  split; [exact Hrun |]. split; [| split; [| split]].
  - intros Hset. rewrite Hrun.
    assert (n = 0%nat) as ->
        by (pose proof (checks_passed_le loop (List.length le) 0 0 Hset); subst n; lia).
    reflexivity.
  - intros k Hset. rewrite Hlen. apply (checks_passed_le loop _ 0 k). exact Hset.
  - intros i Hi. rewrite Hlen in Hi.
    apply (checks_passed_clear loop (List.length le) 0 i). exact Hi.
  - intros Hclear. rewrite Hrun. cbn [snd].
    assert (forall m k, checks_passed loop k m = m) as Hall.
    { induction m as [| m IHm]; intros k; cbn; [reflexivity |].
      rewrite Hclear. cbn. rewrite IHm. reflexivity. }
    subst n. rewrite Hall, firstn_all. subst le.
    destruct (list_read st); reflexivity.
Qed.

End DispatchClaims.

Section DispatchExamples.
Import LList Plugin Example.
Local Open Scope string_scope.

(** Both writers get the [cpu] measurement, [rrdtool] first, and the failure
    that [rrdtool] reports does not show in the result. *)
Lemma dispatch_invokes_every_writer_witness :
  list_write two_writers
  = Some [ {| key := "rrdtool"; value := log_writer "rrdtool" (-1) |};
           {| key := "csv"; value := log_writer "csv" 0 |} ]
  /\ [ {| key := "rrdtool"; value := log_writer "rrdtool" (-1) |};
       {| key := "csv"; value := log_writer "csv" 0 |} ] <> []
  /\ lookup (list_data_set two_writers) "cpu" = Some cpu
  /\ plugin_dispatch_values two_writers "cpu" [1; 2] []
     = (0, ["rrdtool:cpu"; "csv:cpu"],
        [("rrdtool", cpu, [1; 2]); ("csv", cpu, [1; 2])]).
Proof.
  assert ([ {| key := "rrdtool"; value := log_writer "rrdtool" (-1) |};
            {| key := "csv"; value := log_writer "csv" 0 |} ] <> []) as Hne
      by discriminate.
  split; [reflexivity |]. split; [exact Hne |]. split; [reflexivity |].
  destruct (dispatch_invokes_every_writer two_writers "cpu" [1; 2] [] _ cpu
              eq_refl Hne eq_refl) as (H & _).
  exact (eq_trans H eq_refl).
Defined.

(** With a schema for [cpu] but no write registry the dispatch fails. *)
Lemma dispatch_without_write_registry_witness :
  list_write no_writer = None
  /\ lookup (list_data_set no_writer) "cpu" = Some cpu
  /\ plugin_dispatch_values no_writer "cpu" [1; 2] [] = (-1, [], []).
Proof.
  split; [reflexivity |]. split; [reflexivity |].
  destruct (dispatch_without_write_registry no_writer "cpu" [1; 2] [] eq_refl)
    as (H & _).
  exact H.
Defined.

(** C4 (as stated) fails: a write registration that is given memory for the
    registry but none for its entry returns -1 and registers nothing, yet
    leaves an empty registry behind; the registration of the [cpu] schema
    succeeds.  No write callback has been registered, and the dispatch of a
    [cpu] measurement returns 0, having invoked nothing. *)
Lemma dispatch_empty_write_registry_counterexample :
  fst (register_all (initial_state [true; false]) starved_registrations) = [-1; 0]
  /\ writer_registered (initial_state [true; false]) starved_registrations = false
  /\ entries (list_write starved_writer) = []
  /\ lookup (list_data_set starved_writer) "cpu" = Some cpu
  /\ plugin_dispatch_values starved_writer "cpu" [1; 2] [] = (0, [], []).
Proof. repeat split. Qed.

(** Two writers and no schema for [cpu]: the dispatch fails and nothing is
    written. *)
Lemma dispatch_unknown_type_witness :
  list_write no_schema
  = Some [ {| key := "rrdtool"; value := log_writer "rrdtool" 0 |};
           {| key := "csv"; value := log_writer "csv" 0 |} ]
  /\ [ {| key := "rrdtool"; value := log_writer "rrdtool" 0 |};
       {| key := "csv"; value := log_writer "csv" 0 |} ] <> []
  /\ lookup (list_data_set no_schema) "cpu" = None
  /\ plugin_dispatch_values no_schema "cpu" [1; 2] [] = (-1, [], []).
Proof.
  assert ([ {| key := "rrdtool"; value := log_writer "rrdtool" 0 |};
            {| key := "csv"; value := log_writer "csv" 0 |} ] <> []) as Hne
      by discriminate.
  split; [reflexivity |]. split; [exact Hne |]. split; [reflexivity |].
  exact (dispatch_unknown_type no_schema "cpu" [1; 2] [] _ eq_refl Hne eq_refl).
Defined.

(** The flag raised while [cpu] runs: [load] and [df] are not invoked. *)
Example read_sweep_raised_at_1 :
  plugin_read_all raised_at_1 three_readers [] = (["cpu"], ["cpu"]).
Proof. reflexivity. Qed.

End DispatchExamples.

(** ** The module loader *)

Section LoaderFacts.
Import Loader.
Local Open Scope string_scope.

Lemma tolower_zero (c : ascii) : Ascii.eqb (tolower c) zero = Ascii.eqb c zero.
Proof. destruct c as [[] [] [] [] [] [] [] []]; reflexivity. Qed.

Lemma ascii_difference (c1 c2 : ascii) :
  Ascii.eqb c1 c2 = false ->
  (Z.of_nat (nat_of_ascii c1) - Z.of_nat (nat_of_ascii c2) =? 0)%Z = false.
Proof.
  intros Hne. apply Z.eqb_neq. intros H.
  assert (nat_of_ascii c1 = nat_of_ascii c2) as Heq by lia.
  apply (f_equal ascii_of_nat) in Heq. rewrite !ascii_nat_embedding in Heq.
  subst c2. rewrite Ascii.eqb_refl in Hne. discriminate.
Qed.

(** Against a C string, [strncasecmp] over its whole length is 0 exactly for
    the names that begin with it, case left aside. *)
Lemma strncasecmp_prefix (typename : string) :
  is_cstring typename = true ->
  forall d_name,
    (strncasecmp d_name typename (strlen typename) =? 0)%Z
    = begins_with_nocase typename d_name.
Proof.
  unfold begins_with_nocase, strlen.
  induction typename as [| c typename IH]; intros Hc d_name.
  - destruct d_name; reflexivity.
  - cbn in Hc. apply andb_true_iff in Hc as [Hnz Hc].
    apply negb_true_iff in Hnz.
    cbn [String.length strncasecmp lower peek advance].
    destruct d_name as [| c' d_name]; cbn [peek advance lower String.prefix].
    + assert (Ascii.eqb (tolower zero) (tolower c) = false) as E.
      { change (tolower zero) with zero. rewrite Ascii.eqb_sym, tolower_zero.
        exact Hnz. }
      rewrite E. cbn [negb]. apply ascii_difference. exact E.
    + destruct (Ascii.eqb (tolower c') (tolower c)) eqn:E; cbn [negb].
      * apply Ascii.eqb_eq in E. rewrite E.
        rewrite tolower_zero, Hnz.
        destruct (ascii_dec (tolower c) (tolower c)) as [_ | Hne];
          [apply IH; exact Hc | contradiction].
      * rewrite (ascii_difference _ _ E).
        destruct (ascii_dec (tolower c) (tolower c')) as [Heq | _]; [| reflexivity].
        rewrite Heq, Ascii.eqb_refl in E. discriminate.
Qed.

Lemma is_cstring_app (s1 s2 : string) :
  is_cstring s1 = true -> is_cstring s2 = true -> is_cstring (s1 ++ s2) = true.
Proof.
  intros H1 H2. induction s1 as [| c s1 IH]; cbn in *; [exact H2 |].
  apply andb_true_iff in H1 as [Hc H1]. rewrite Hc. cbn. apply IH. exact H1.
Qed.

Context {world dlhandle : Type}.
Variable lt_dlopen : string -> option dlhandle.
Variable lt_dlsym : dlhandle -> string -> option (world -> world).
Variable opendir : string -> option (list string).
Variable lstat : string -> option Z.
Variable PLUGINDIR : string.

(** One turn of the loop, read off what [attempt_of] says of the entry. *)
Lemma load_loop_step (dir typename : string) (n : nat) (d_name : string)
    (rest : list string) (w : world) :
  load_loop lt_dlopen lt_dlsym lstat dir typename n (d_name :: rest) w
  = if negb (strncasecmp d_name typename n =? 0)%Z then
      load_loop lt_dlopen lt_dlsym lstat dir typename n rest w
    else if activates lt_dlopen lt_dlsym lstat dir d_name then
      (0%Z, snd (plugin_load_file lt_dlopen lt_dlsym (dir ++ "/" ++ d_name) w),
       [(d_name, attempt_of lt_dlopen lt_dlsym lstat dir d_name)])
    else
      let '(ret, w2, log) :=
        load_loop lt_dlopen lt_dlsym lstat dir typename n rest w in
      (ret, w2, (d_name, attempt_of lt_dlopen lt_dlsym lstat dir d_name) :: log).
Proof.
  cbn [load_loop]. unfold activates, attempt_of, plugin_load_file.
  destruct (negb (strncasecmp d_name typename n =? 0)%Z); [reflexivity |].
  destruct (Z.of_nat (strlen (dir ++ "/" ++ d_name)) >=? BUFSIZE)%Z;
    [reflexivity |].
  destruct (lstat (dir ++ "/" ++ d_name)) as [st_mode |]; [| reflexivity].
  destruct (S_ISREG st_mode); [| reflexivity].
  destruct (lt_dlopen (dir ++ "/" ++ d_name)) as [dlh |]; [| reflexivity].
  destruct (lt_dlsym dlh "module_register") as [reg_handle |]; reflexivity.
Qed.

Lemma load_loop_spec (dir type : string) (des : list string) (w : world) :
  let cands := filter (candidate type) des in
  load_loop lt_dlopen lt_dlsym lstat dir (type ++ ".so") (strlen (type ++ ".so")) des w
  = ((if existsb (activates lt_dlopen lt_dlsym lstat dir) cands then 0%Z else 1%Z),
     world_after_load lt_dlopen lt_dlsym lstat dir cands w,
     map (fun d => (d, attempt_of lt_dlopen lt_dlsym lstat dir d))
         (through_first (activates lt_dlopen lt_dlsym lstat dir) cands)).
Proof.
  cbv zeta. unfold world_after_load. revert w.
  induction des as [| d_name rest IH]; intros w; [reflexivity |].
  rewrite load_loop_step. cbn [filter].
  change (strncasecmp d_name (type ++ ".so") (strlen (type ++ ".so")) =? 0)%Z
    with (candidate type d_name).
  destruct (candidate type d_name); cbn [negb]; [| apply IH].
  cbn [existsb find through_first map].
  destruct (activates lt_dlopen lt_dlsym lstat dir d_name); cbn [orb];
    [reflexivity |].
  rewrite IH. reflexivity.
Qed.

End LoaderFacts.

Section LoaderClaims.
Import Loader.
Local Open Scope string_scope.

Context {world dlhandle : Type}.
Variable lt_dlopen : string -> option dlhandle.
Variable lt_dlsym : dlhandle -> string -> option (world -> world).
Variable opendir : string -> option (list string).
Variable lstat : string -> option Z.
Variable PLUGINDIR : string.

(** The two ways [plugin_load] gives up before it looks at any entry. *)
Lemma plugin_load_gives_up (plugindir : option string) (type : string) (w : world) :
  (BUFSIZE <= Z.of_nat (strlen (type ++ ".so"))
   \/ opendir (plugin_get_dir PLUGINDIR plugindir) = None)%Z ->
  plugin_load lt_dlopen lt_dlsym opendir lstat PLUGINDIR plugindir type w
  = ((-1)%Z, w, []).
Proof.
  intros H. unfold plugin_load.
  destruct (Z.of_nat (strlen (type ++ ".so")) >=? BUFSIZE)%Z eqn:E; [reflexivity |].
  destruct H as [H | H]; [rewrite Z.geb_leb in E; apply Z.leb_gt in E; lia |].
  rewrite H. reflexivity.
Qed.

(** C9: for a type name [t] the loader looks further at a directory entry
    exactly when its name begins, case left aside, with [t] followed by
    [".so"], so that for ["cpu"] no name beginning with ["cpufreq"] is looked
    at.  It takes these candidates in the order of enumeration, each attempt
    being the file checks followed by [plugin_load_file], up to and including
    the first that activates; it returns 0 exactly when some candidate
    activates (its [module_register] is then the only one that has run), and
    1, the world untouched, when none does. *)
Theorem plugin_load_first_candidate (plugindir : option string) (type : string)
    (w : world) (des : list string)
    (Hc : is_cstring type = true)
    (Hlen : (Z.of_nat (strlen (type ++ ".so")) < BUFSIZE)%Z)
    (Hdir : opendir (plugin_get_dir PLUGINDIR plugindir) = Some des) :
  let dir := plugin_get_dir PLUGINDIR plugindir in
  let cands := filter (candidate type) des in
  let result := plugin_load lt_dlopen lt_dlsym opendir lstat PLUGINDIR plugindir type w in
  (forall d_name, candidate type d_name = begins_with_nocase (type ++ ".so") d_name)
  /\ (forall rest, candidate "cpu" ("cpufreq" ++ rest) = false)
  /\ snd result
     = map (fun d => (d, attempt_of lt_dlopen lt_dlsym lstat dir d))
         (through_first (activates lt_dlopen lt_dlsym lstat dir) cands)
  /\ (fst (fst result) = 0%Z
      <-> exists d_name,
            In d_name cands /\ activates lt_dlopen lt_dlsym lstat dir d_name = true)
  /\ (fst (fst result) <> 0%Z ->
      fst (fst result) = 1%Z /\ snd (fst result) = w)
  /\ snd (fst result) = world_after_load lt_dlopen lt_dlsym lstat dir cands w.
Proof.
  intros dir cands result.
  assert (result
          = ((if existsb (activates lt_dlopen lt_dlsym lstat dir) cands
              then 0%Z else 1%Z),
             world_after_load lt_dlopen lt_dlsym lstat dir cands w,
             map (fun d => (d, attempt_of lt_dlopen lt_dlsym lstat dir d))
               (through_first (activates lt_dlopen lt_dlsym lstat dir) cands)))
    as Hres.
  { subst result. unfold plugin_load. fold dir.
    assert ((Z.of_nat (strlen (type ++ ".so")) >=? BUFSIZE)%Z = false) as ->
        by (rewrite Z.geb_leb; apply Z.leb_gt; exact Hlen).
    subst dir. rewrite Hdir. apply load_loop_spec. }
  rewrite Hres. cbn [fst snd].
  split.
  { intros d_name. unfold candidate. apply strncasecmp_prefix.
    apply is_cstring_app; [exact Hc | reflexivity]. }
  split; [intros rest; reflexivity |].
  split; [reflexivity |].
  split.
  { destruct (existsb (activates lt_dlopen lt_dlsym lstat dir) cands) eqn:E.
    - split; [intros _ | reflexivity].
      apply existsb_exists in E. exact E.
    - split; [discriminate |].
      intros H. apply existsb_exists in H. congruence. }
  split; [| reflexivity].
  destruct (existsb (activates lt_dlopen lt_dlsym lstat dir) cands) eqn:E.
  - intros H. contradiction.
  - intros _. split; [reflexivity |]. unfold world_after_load.
    destruct (find (activates lt_dlopen lt_dlsym lstat dir) cands) as [d |] eqn:Ef;
      [| reflexivity].
    apply find_some in Ef. exfalso.
    assert (existsb (activates lt_dlopen lt_dlsym lstat dir) cands = true)
      by (apply existsb_exists; eauto).
    congruence.
Qed.

End LoaderClaims.

(** Loading [cpu] from a directory that also holds [cpufreq.so], a symbolic
    link [cpu.so.old] and a [CPU.so] that is no shared object: the link is
    passed over, [CPU.so] fails to load, [cpu.so] registers. *)
Lemma plugin_load_first_candidate_witness :
  Loader.is_cstring "cpu" = true
  /\ (Z.of_nat (Loader.strlen "cpu.so") < Loader.BUFSIZE)
  /\ Example.host_opendir "/usr/lib/collectd"
     = Some ["."; ".."; "cpufreq.so"; "cpu.so.old"; "CPU.so"; "cpu.so"]%string
  /\ Loader.plugin_load Example.host_dlopen Example.host_dlsym Example.host_opendir
       Example.host_lstat "/usr/lib/collectd" None "cpu" []
     = (0, ["module_register /usr/lib/collectd/cpu.so"%string],
        [("cpu.so.old"%string, Loader.NotRegular);
         ("CPU.so"%string, Loader.LoadFile 1);
         ("cpu.so"%string, Loader.LoadFile 0)]).
Proof.
  split; [reflexivity |]. split; [reflexivity |]. split; [reflexivity |].
  pose proof (plugin_load_first_candidate Example.host_dlopen Example.host_dlsym
                Example.host_opendir Example.host_lstat "/usr/lib/collectd"
                None "cpu" [] _ eq_refl eq_refl eq_refl)
    as (_ & _ & Hlog & _ & _ & Hworld).
  rewrite (surjective_pairing (Loader.plugin_load _ _ _ _ _ _ _ _)).
  rewrite (surjective_pairing (fst (Loader.plugin_load _ _ _ _ _ _ _ _))).
  rewrite Hlog, Hworld. reflexivity.
Defined.

(** * Further properties of plugin.c *)

(** ** The complaint limiter *)

Section ComplainMore.
Import Complain.

Lemma run_app step ks ks' :
  forall c c1 out1,
    run step c ks = Some (c1, out1) ->
    run step c (ks ++ ks')
    = match run step c1 ks' with
      | None => None
      | Some (c2, out2) => Some (c2, out1 ++ out2)
      end.
Proof.
  induction ks as [| k ks IH]; intros c c1 out1 Hrun; cbn in *.
  - injection Hrun as <- <-. destruct (run step c ks') as [[? ?] |]; reflexivity.
  - destruct (do_call step c k) as [[c0 out0] |]; [| discriminate].
    destruct (run step c0 ks) as [[c3 out3] |] eqn:Er; [| discriminate].
    injection Hrun as <- <-. rewrite (IH c0 c3 out3 Er).
    destruct (run step c3 ks') as [[? ?] |]; [| reflexivity].
    rewrite app_assoc. reflexivity.
Qed.

Lemma run_silent step (k : nat) :
  forall c, (k <= Z.to_nat (delay c))%nat ->
    run step c (complain_calls k)
    = Some ({| interval := interval c; delay := delay c - Z.of_nat k |}, []).
Proof.
  induction k as [| k IH]; intros c Hk.
  - cbn. rewrite Z.sub_0_r. destruct c; reflexivity.
  - change (complain_calls (S k)) with (Complain 3 "failed" :: complain_calls k).
    cbn [run do_call]. rewrite plugin_complain_suppressed by lia.
    rewrite IH by (cbn; lia). cbn [interval delay app].
    do 3 f_equal. lia.
Qed.

(** X1: whatever the record, its delay is the number of complaints that will
    be swallowed: with [delay = d >= 0] the next [d] calls write nothing and
    leave the interval alone, and the call after them writes one line and
    sets the delay anew from the interval it leaves. *)
Theorem complain_silent_run (step : Z) (c : complain_t)
    (Hs : 0 < step) (Hd : 0 <= delay c) :
  run step c (complain_calls (Z.to_nat (delay c)))
  = Some ({| interval := interval c; delay := 0 |}, [])
  /\ exists c',
       run step c (complain_calls (Z.to_nat (delay c)) ++ [Complain 3 "failed"])
       = Some (c', [(3, format_message "failed")])
       /\ delay c' = interval c' / step.
Proof.
  assert (run step c (complain_calls (Z.to_nat (delay c)))
          = Some ({| interval := interval c; delay := 0 |}, [])) as Hquiet.
  { rewrite run_silent by lia. rewrite Z2Nat.id, Z.sub_diag by lia. reflexivity. }
  split; [exact Hquiet |].
  rewrite (run_app _ _ _ _ _ _ Hquiet). cbn [run do_call].
  rewrite plugin_complain_emitting by (cbn; lia).
  eexists. split; [reflexivity |].
  apply complain_next_delay. cbn. lia.
Qed.

(** Two suppressed calls, then a line. *)
Lemma complain_silent_run_witness :
  0 < 10
  /\ 0 <= delay {| interval := 20; delay := 2 |}
  /\ run 10 {| interval := 20; delay := 2 |} (complain_calls 2)
     = Some ({| interval := 20; delay := 0 |}, []).
Proof.
  assert (0 < 10) as Hs by reflexivity.
  assert (0 <= delay {| interval := 20; delay := 2 |}) as Hd by discriminate.
  split; [exact Hs |]. split; [exact Hd |].
  exact (proj1 (complain_silent_run 10 _ Hs Hd)).
Defined.

Lemma run_preserves (P : complain_t -> Prop) step :
  (forall c, P c -> P (complain_next step c)) ->
  (forall c level msg, P c -> P (fst (plugin_relief level c msg))) ->
  0 < step ->
  forall ks c c' out, P c -> run step c ks = Some (c', out) -> P c'.
Proof.
  intros Hnext Hrelief Hs.
  induction ks as [| k ks IH]; intros c c' out Hc Hrun; cbn in Hrun.
  - injection Hrun as <- _. exact Hc.
  - destruct (do_call step c k) as [[c1 out1] |] eqn:Ek; [| discriminate].
    destruct (run step c1 ks) as [[c2 out2] |] eqn:Er; [| discriminate].
    injection Hrun as <- _. apply (IH c1 c2 out2); [| exact Er].
    destruct k as [level msg | level msg]; cbn in Ek.
    + destruct (plugin_complain_state step level c msg Hs) as [o Ho].
      rewrite Ho in Ek. injection Ek as <- _. apply Hnext. exact Hc.
    + injection Ek as Ek. pose proof (Hrelief c level msg Hc) as H.
      rewrite Ek in H. exact H.
Qed.

(** X2: no call site is ever silenced for longer than a day's worth of steps:
    in every record reached from the zero record, by complaints and reliefs in
    any order, the delay is not negative and [delay * step <= 86400]. *)
Theorem complain_delay_bounded (step : Z) (c : complain_t)
    (Hs : 0 < step) (Hc : reachable step c) :
  0 <= delay c /\ delay c * step <= 86400.
Proof.
  destruct Hc as (ks & out & Hrun).
  set (P := fun c0 => in_range c0 /\ delay c0 * step <= 86400).
  assert (P c) as [[_ Hd] Hb]; [| split; assumption].
  apply (run_preserves P step) with (ks := ks) (c := complain_zero) (out := out);
    try assumption.
  - intros c0 [Hr Hb]. split; [apply complain_next_in_range; assumption |].
    destruct (Z_lt_le_dec 0 (delay c0)) as [Hpos | Hz].
    + unfold complain_next. apply Z.ltb_lt in Hpos as E. rewrite E. cbn. lia.
    + rewrite complain_next_delay by assumption.
      pose proof (complain_next_in_range step c0 Hs Hr) as [[Hlo Hhi] _].
      pose proof (Z.mul_div_le (interval (complain_next step c0)) step Hs). lia.
  - intros c0 level msg [Hr Hb]. split; [apply plugin_relief_in_range; exact Hr |].
    unfold plugin_relief. destruct (interval c0 =? 0); cbn; exact Hb.
  - split; [apply complain_zero_in_range | cbn; lia].
Qed.

(** At step 10, after a complaint and a relief. *)
Lemma complain_delay_bounded_witness :
  0 < 10
  /\ reachable 10 {| interval := 0; delay := 1 |}
  /\ delay {| interval := 0; delay := 1 |} * 10 <= 86400.
Proof.
  assert (0 < 10) as Hs by reflexivity.
  assert (reachable 10 {| interval := 0; delay := 1 |}) as Hc.
  { exists [Complain 3 "failed"; Relief 6 "ok"]%string, 
      [(3, format_message "failed"); (6, format_message "ok")]%string.
    reflexivity. }
  split; [exact Hs |]. split; [exact Hc |].
  exact (proj2 (complain_delay_bounded 10 _ Hs Hc)).
Defined.

(** X3: [plugin_complain] aborts, on [assert (step > 0)], exactly when the
    step is not positive and the call is not a suppressed one; a suppressed
    call never looks at the step. *)
Theorem complain_abort_iff (step level : Z) (c : complain_t) (msg : string) :
  plugin_complain step level c msg = None <-> (step <= 0 /\ delay c <= 0).
Proof.
  unfold plugin_complain.
  destruct (0 <? delay c) eqn:Ed; [apply Z.ltb_lt in Ed | apply Z.ltb_ge in Ed].
  - split; [discriminate | lia].
  - destruct (0 <? step) eqn:Es; [apply Z.ltb_lt in Es | apply Z.ltb_ge in Es]; cbn.
    + split; [discriminate | lia].
    + split; [intros _; lia | reflexivity].
Qed.





(** X5: once a relief has been written with no suppression pending, the
    backoff is forgotten: the next complaint is written at once and starts
    from the base step again. *)
Theorem relief_restarts_backoff (step level level' : Z) (c : complain_t)
    (msg msg' : string)
    (Hs : 0 < step) (Hi : interval c <> 0) (Hd : delay c = 0) :
  run step c [Relief level msg; Complain level' msg']
  = Some ({| interval := Z.min step 86400; delay := Z.min step 86400 / step |},
          [(level, format_message msg); (level', format_message msg')]).
Proof.
  cbn [run do_call]. rewrite (plugin_relief_emitting level c msg Hi), Hd.
  change {| interval := 0; delay := 0 |} with complain_zero.
  rewrite (plugin_complain_first step level' msg' Hs). reflexivity.
Qed.

(** A saturated call site is relieved and complains again. *)
Lemma relief_restarts_backoff_witness :
  0 < 10
  /\ interval {| interval := 86400; delay := 0 |} <> 0
  /\ delay {| interval := 86400; delay := 0 |} = 0
  /\ state_after 10 {| interval := 86400; delay := 0 |}
       [Relief 6 "ok"; Complain 3 "failed"]
     = Some {| interval := 10; delay := 1 |}.
Proof.
  assert (0 < 10) as Hs by reflexivity.
  assert (interval {| interval := 86400; delay := 0 |} <> 0) as Hi by discriminate.
  split; [exact Hs |]. split; [exact Hi |]. split; [reflexivity |].
  unfold state_after.
  rewrite (relief_restarts_backoff 10 6 3 _ "ok" "failed" Hs Hi eq_refl).
  reflexivity.
Defined.

(** X6: at the ceiling the limiter is periodic: from a record with
    [interval = 86400] and no delay pending, [86400 / step + 1] complaints
    write exactly one line, the first, and bring the record back to where it
    was. *)
Theorem complain_saturated_period (step : Z) (c : complain_t)
    (Hs : 0 < step) (Hi : interval c = 86400) (Hd : delay c = 0) :
  run step c (Complain 3 "failed" :: complain_calls (Z.to_nat (86400 / step)))
  = Some (c, [(3, format_message "failed")]).
Proof.
  assert (in_range c) as Hr by (split; lia).
  cbn [run do_call]. rewrite plugin_complain_emitting by lia.
  pose proof (complain_next_interval step c Hs Hr (Z.eq_le_incl _ _ Hd)) as Hi1.
  pose proof (complain_next_delay step c (Z.eq_le_incl _ _ Hd)) as Hd1.
  assert (interval (complain_next step c) = 86400) as Hi2.
  { rewrite Hi1, Hi. destruct (86400 <? step) eqn:E;
      [apply Z.ltb_lt in E | apply Z.ltb_ge in E]; lia. }
  rewrite Hi2 in Hd1.
  rewrite run_silent by (rewrite Hd1; lia).
  rewrite Hi2, Hd1, Z2Nat.id, Z.sub_diag by (apply Z.div_pos; lia).
  destruct c as [i d]. cbn in Hi, Hd. subst i d. reflexivity.
Qed.

(** A step of six hours: the line and four suppressed calls. *)
Lemma complain_saturated_period_witness :
  0 < 21600
  /\ run 21600 {| interval := 86400; delay := 0 |}
       (Complain 3 "failed" :: complain_calls 4)
     = Some ({| interval := 86400; delay := 0 |}, [(3, format_message "failed")]).
Proof.
  assert (0 < 21600) as Hs by reflexivity.
  split; [exact Hs |].
  exact (complain_saturated_period 21600 {| interval := 86400; delay := 0 |}
           Hs eq_refl eq_refl).
Defined.

End ComplainMore.

(** ** The registries *)

Section RegistryMore.
Import LList Registrations.
Context {V : Type}.

Implicit Types (l : llist_t V) (reg : option (llist_t V)) (name : string).

Lemma lookup_entries reg name :
  lookup reg name
  = option_map (fun r => value (snd r)) (search_from (entries reg) name 0).
Proof.
  unfold lookup, llist_search. destruct reg as [l |]; cbn; [| reflexivity].
  destruct (search_from l name 0) as [[i le] |]; reflexivity.
Qed.

Lemma search_from_append_other l (e : llentry_t V) other pos :
  other <> key e ->
  search_from (llist_append l e) other pos = search_from l other pos.
Proof.
  intros Hne. unfold llist_append. revert pos.
  induction l as [| a l IH]; intros pos; cbn.
  - apply String.eqb_neq in Hne. rewrite Hne. reflexivity.
  - destruct (String.eqb other (key a)); [reflexivity | apply IH].
Qed.

Lemma search_from_unique l (e : llentry_t V) pos :
  NoDup (map key l) -> In e l ->
  exists i, search_from l (key e) pos = Some (i, e).
Proof.
  revert pos. induction l as [| a l IH]; intros pos Hnd Hin; [destruct Hin |].
  cbn in Hnd. apply NoDup_cons_iff in Hnd as [Hnotin Hnd]. cbn.
  destruct Hin as [-> | Hin].
  - rewrite String.eqb_refl. eauto.
  - destruct (String.eqb (key e) (key a)) eqn:E; [| apply IH; assumption].
    apply String.eqb_eq in E. exfalso. apply Hnotin. rewrite <- E.
    apply in_map. exact Hin.
Qed.

(** What a registration does to the entries and to the heap, case by case. *)
Lemma register_callback_outcome h reg name (cb : V) :
  let r := register_callback h reg name cb in
  (fst (fst r) = -1 /\ entries (snd (fst r)) = entries reg /\ In false h
   /\ ~ In name (keys reg))
  \/ (fst (fst r) = 0 /\ ~ In name (keys reg)
      /\ snd (fst r)
         = Some (llist_append (entries reg) {| key := name; value := cb |}))
  \/ (fst (fst r) = 0 /\ snd r = h /\ In name (keys reg) /\
      exists l i le, reg = Some l /\ search_from l name 0 = Some (i, le)
                     /\ snd (fst r) = Some (set_value l i cb)).
Proof.
  cbv zeta. unfold register_callback, llist_create, llentry_create, malloc.
  destruct reg as [l |].
  - cbn. destruct (search_from l name 0) as [[i le] |] eqn:E.
    + right. right. cbn. split; [reflexivity |]. split; [reflexivity |].
      split; [| eauto 7].
      destruct (in_dec string_dec name (map key l)) as [Hin | Hnin]; [exact Hin |].
      apply (search_from_none l name 0) in Hnin. congruence.
    + apply search_from_none in E.
      destruct h as [| [] h]; cbn; [right; left | right; left | left]; auto 6.
  - assert (~ In name (@keys V None)) as Hnin by (intros []).
    destruct h as [| [] h]; cbn; [right; left; auto | | left; auto 6].
    destruct h as [| [] h]; cbn; [right; left | right; left | left]; auto 6.
Qed.

(** The lookups after a registration. *)
Lemma register_callback_lookup h reg name (cb : V) :
  let r := register_callback h reg name cb in
  (fst (fst r) = 0 \/ fst (fst r) = -1)
  /\ (fst (fst r) = 0 -> lookup (snd (fst r)) name = Some cb)
  /\ (fst (fst r) = -1 -> lookup (snd (fst r)) name = lookup reg name)
  /\ (forall other, other <> name ->
        lookup (snd (fst r)) other = lookup reg other).
Proof.
  cbv zeta. pose proof (register_callback_outcome h reg name cb) as Hc.
  cbv zeta in Hc.
  destruct (register_callback h reg name cb) as [[status reg'] h']. cbn [fst snd] in *.
  destruct Hc as [(-> & He & _ & _)
                 | [(-> & Hnin & ->)
                   | (-> & _ & _ & l & i & le & -> & E & ->)]].
  - split; [auto |]. split; [discriminate |].
    split; [| intros other _]; rewrite !lookup_entries, He; reflexivity.
  - assert (keys reg = map key (entries reg)) as Hk by (destruct reg; reflexivity).
    rewrite Hk in Hnin.
    split; [auto |]. split; [| split; [discriminate |]].
    + intros _. rewrite lookup_entries. cbn [entries].
      rewrite search_from_append_new by exact Hnin. reflexivity.
    + intros other Hne. rewrite !lookup_entries. cbn [entries].
      rewrite search_from_append_other by exact Hne. reflexivity.
  - split; [auto |]. split; [| split; [discriminate |]].
    + intros _. rewrite lookup_entries. cbn [entries].
      pose proof (search_from_set_value_same l name 0 i le cb E) as H.
      rewrite Nat.sub_0_r in H. rewrite H. reflexivity.
    + intros other Hne. rewrite !lookup_entries. cbn [entries].
      pose proof (search_from_set_value_other l name other 0 i le cb E Hne) as H.
      rewrite Nat.sub_0_r in H. exact H.
Qed.

(** X7: in a registry every entry is the one a lookup of its name finds: the
    names are unique, so no entry is ever hidden behind another of the same
    name. *)
Theorem registry_entries_found reg (Hreg : registry reg) :
  NoDup (keys reg)
  /\ forall e, In e (entries reg) -> lookup reg (key e) = Some (value e).
Proof.
  pose proof (registry_NoDup reg Hreg) as Hnd.
  split; [exact Hnd |]. intros e He. rewrite lookup_entries.
  assert (keys reg = map key (entries reg)) as Hk by (destruct reg; reflexivity).
  rewrite Hk in Hnd.
  destruct (search_from_unique (entries reg) e 0 Hnd He) as [i Hi].
  rewrite Hi. reflexivity.
Qed.

(** X8: a registration returns 0 or -1.  After a 0 the name is bound to the
    callback just given; after a -1 it is bound as before; the other names
    keep their callbacks in either case. *)
Theorem register_then_lookup (h : heap) reg name (cb : V) :
  let r := register_callback h reg name cb in
  (fst (fst r) = 0 \/ fst (fst r) = -1)
  /\ (fst (fst r) = 0 -> lookup (snd (fst r)) name = Some cb)
  /\ (fst (fst r) = -1 -> lookup (snd (fst r)) name = lookup reg name)
  /\ (forall other, other <> name ->
        lookup (snd (fst r)) other = lookup reg other).
Proof. apply register_callback_lookup. Qed.

(** X9: a name that is new goes behind all the entries there are, which stay
    as they were; a name that is there already is overwritten where it
    stands, which needs no memory and so cannot fail. *)
Theorem register_placement (h : heap) reg name (cb : V) :
  let r := register_callback h reg name cb in
  (~ In name (keys reg) -> fst (fst r) = 0 ->
   entries (snd (fst r)) = entries reg ++ [ {| key := name; value := cb |} ])
  /\ (In name (keys reg) ->
      fst (fst r) = 0 /\ snd r = h
      /\ keys (snd (fst r)) = keys reg
      /\ List.length (entries (snd (fst r))) = List.length (entries reg)).
Proof.
  cbv zeta. pose proof (register_callback_outcome h reg name cb) as Hc.
  cbv zeta in Hc.
  destruct (register_callback h reg name cb) as [[status reg'] h']. cbn [fst snd] in *.
  destruct Hc as [(-> & He & Hf & Hnin)
                 | [(-> & Hnin & ->)
                   | (-> & -> & Hin & l & i & le & -> & E & ->)]].
  - split; [intros _ H; discriminate | intros Hin; contradiction].
  - split; [intros _ _; reflexivity |]. intros Hin. contradiction.
  - split; [intros Hnin; contradiction |]. intros _.
    cbn [keys entries]. rewrite set_value_keys, set_value_length. auto.
Qed.

End RegistryMore.

Section RegistrySequences.
Import LList Registrations.
Context {V : Type}.

Implicit Types (reg : option (llist_t V)) (name : string).

(** X10: a registration fails only for want of memory: it returns -1 only
    when one of the allocations still to come is refused, and then the
    entries of the registry are what they were; when none is refused it
    returns 0. *)
Theorem register_fails_only_without_memory (h : heap) reg name (cb : V) :
  let r := register_callback h reg name cb in
  (fst (fst r) = -1 -> In false h /\ entries (snd (fst r)) = entries reg)
  /\ (~ In false h -> fst (fst r) = 0).
Proof.
  cbv zeta. pose proof (register_callback_outcome h reg name cb) as Hc.
  cbv zeta in Hc.
  destruct (register_callback h reg name cb) as [[status reg'] h']. cbn [fst snd] in *.
  destruct Hc as [(-> & He & Hf & _) | [(-> & _) | (-> & _)]].
  - split; [auto | intros H; contradiction].
  - split; [discriminate | reflexivity].
  - split; [discriminate | reflexivity].
Qed.

Lemma register_plentiful_lookup reg name (cb : V) other :
  lookup (snd (fst (register_callback [] reg name cb))) other
  = if String.eqb other name then Some cb else lookup reg other.
Proof.
  destruct (register_callback_plentiful reg name cb) as (reg' & E & _).
  pose proof (register_callback_lookup [] reg name cb) as (_ & Hsame & _ & Hother).
  cbv zeta in *. rewrite E in *. cbn [fst snd] in *.
  destruct (String.eqb other name) eqn:En.
  - apply String.eqb_eq in En. subst other. apply Hsame. reflexivity.
  - apply String.eqb_neq in En. apply Hother. exact En.
Qed.

Lemma registry_from_lookup (ops : list (string * V)) name :
  forall reg,
    lookup (registry_from reg ops) name
    = last_binding_from (lookup reg name) ops name.
Proof.
  unfold registry_from, last_binding_from.
  induction ops as [| [n cb] ops IH]; intros reg; [reflexivity |].
  cbn [fold_left fst snd]. rewrite IH, register_plentiful_lookup. reflexivity.
Qed.

Lemma registry_from_keys (ops : list (string * V)) :
  forall reg,
    keys (registry_from reg ops)
    = fold_left Plugin.add_name (map fst ops) (keys reg).
Proof.
  unfold registry_from.
  induction ops as [| [n cb] ops IH]; intros reg; [reflexivity |].
  cbn [fold_left map fst snd]. rewrite IH.
  destruct (register_callback_plentiful reg n cb) as (reg' & E & Hk).
  rewrite E. cbn [fst snd]. rewrite Hk. reflexivity.
Qed.

Lemma registry_from_registry (ops : list (string * V)) :
  forall reg, registry reg -> registry (registry_from reg ops).
Proof.
  unfold registry_from.
  induction ops as [| [n cb] ops IH]; intros reg Hreg; [exact Hreg |].
  cbn [fold_left fst snd]. apply IH. apply registry_register. exact Hreg.
Qed.

(** X11: the last registration wins and the first one places: after any
    sequence of registrations, memory being plentiful, a name is bound to the
    callback given with it last, and the names stand in the order in which
    each was registered first. *)
Theorem registry_of_last_binding (ops : list (string * V)) name :
  lookup (registry_of ops) name = last_binding ops name
  /\ keys (registry_of ops) = Plugin.first_registration_order (map fst ops)
  /\ registry (registry_of ops).
Proof.
  unfold registry_of, last_binding. split; [| split].
  - apply (registry_from_lookup ops name None).
  - apply (registry_from_keys ops None).
  - apply registry_from_registry. apply registry_null.
Qed.

End RegistrySequences.

(** The registry built by registering [cpu], [load] and [cpu] again. *)
Lemma registry_entries_found_witness :
  LList.registry (Registrations.registry_of
                    [("cpu"%string, 1%nat); ("load"%string, 7%nat); ("cpu"%string, 2%nat)])
  /\ LList.lookup (Registrations.registry_of
                     [("cpu"%string, 1%nat); ("load"%string, 7%nat); ("cpu"%string, 2%nat)])
       "cpu" = Some 2%nat.
Proof.
  assert (LList.registry (Registrations.registry_of
            [("cpu"%string, 1%nat); ("load"%string, 7%nat); ("cpu"%string, 2%nat)]))
    as Hreg by (apply registry_from_registry; apply LList.registry_null).
  split; [exact Hreg |].
  destruct (registry_entries_found _ Hreg) as (_ & Hfound).
  exact (Hfound {| LList.key := "cpu"; LList.value := 2%nat |} (or_introl eq_refl)).
Defined.

(** ** The dispatcher and the lifecycle sweeps *)

Section PluginMore.
Import LList Plugin.
Context {world value_list_t : Type}.

Implicit Types (st : plugin_state world value_list_t) (d : data_set_t).

(** The dispatch, read off the write registry and the schema bound to the
    name. *)
Lemma dispatch_via_lookup st (name : string) (vl : value_list_t) (w : world) :
  plugin_dispatch_values st name vl w
  = match list_write st, lookup (list_data_set st) name with
    | Some lw, Some d =>
        (0, run_writers lw d vl w, map (fun e => (key e, d, vl)) lw)
    | _, _ => (-1, w, [])
    end.
Proof.
  unfold plugin_dispatch_values, lookup.
  destruct (list_write st) as [lw |]; [| reflexivity].
  destruct (llist_search (list_data_set st) name) as [[i le] |]; [| reflexivity].
  unfold llist_head. rewrite write_sweep_spec. reflexivity.
Qed.

Lemma run_writers_app (le1 le2 : llist_t (write_cb world value_list_t)) d
    (vl : value_list_t) (w : world) :
  run_writers (le1 ++ le2) d vl w = run_writers le2 d vl (run_writers le1 d vl w).
Proof. unfold run_writers. apply fold_left_app. Qed.

(** The registries a registration leaves alone. *)
Lemma register_frame st (r : registration world value_list_t) :
  let st' := snd (register st r) in
  (is_write_registration r = false -> list_write st' = list_write st)
  /\ (match r with RegDataSet _ => False | _ => True end ->
      list_data_set st' = list_data_set st)
  /\ (match r with RegInit _ _ => False | _ => True end ->
      list_init st' = list_init st)
  /\ (match r with RegShutdown _ _ => False | _ => True end ->
      list_shutdown st' = list_shutdown st).
Proof.
  cbv zeta.
  destruct r as [n cb | n cb | n cb | n cb | d]; cbn [register];
    [ unfold plugin_register_init;
      destruct (register_callback (mem st) (list_init st) n cb) as [[? ?] ?]
    | unfold plugin_register_read;
      destruct (register_callback (mem st) (list_read st) n cb) as [[? ?] ?]
    | unfold plugin_register_write;
      destruct (register_callback (mem st) (list_write st) n cb) as [[? ?] ?]
    | unfold plugin_register_shutdown;
      destruct (register_callback (mem st) (list_shutdown st) n cb) as [[? ?] ?]
    | unfold plugin_register_data_set;
      destruct (register_callback (mem st) (list_data_set st) (type d) d) as [[? ?] ?] ];
    cbn; repeat split; intros H; try reflexivity; try discriminate; destruct H.
Qed.

(** X12: the registries are separate name spaces as far as the dispatcher
    goes: a registration for init, read or shutdown, or of a schema for
    another type, whether it succeeds or not and whatever its name, changes
    nothing in what a dispatch does. *)
Theorem dispatch_ignores_other_registrations st
    (r : registration world value_list_t) (name : string) (vl : value_list_t)
    (w : world) (Hr : concerns_dispatch r name = false) :
  plugin_dispatch_values (snd (register st r)) name vl w
  = plugin_dispatch_values st name vl w.
Proof.
  rewrite !dispatch_via_lookup.
  destruct (register_frame st r) as (Hw & Hds & _).
  destruct r as [n cb | n cb | n cb | n cb | d]; try discriminate;
    try (rewrite Hw, Hds by (exact I || reflexivity); reflexivity).
  rewrite Hw by reflexivity. cbn in Hr. apply String.eqb_neq in Hr.
  cbn [register]. unfold plugin_register_data_set.
  pose proof (register_callback_lookup (mem st) (list_data_set st) (type d) d)
    as (_ & _ & _ & Hother).
  cbv zeta in Hother. specialize (Hother name Hr).
  destruct (register_callback (mem st) (list_data_set st) (type d) d)
    as [[status reg'] h']. cbn [fst snd list_data_set list_write] in *.
  rewrite Hother. reflexivity.
Qed.

(** X13: a dispatch returns 0 or -1, and 0 exactly when the write registry
    exists and a schema is bound to the type name; a dispatch that returns -1
    has invoked nothing and left the world as it was. *)
Theorem dispatch_status st (name : string) (vl : value_list_t) (w : world) :
  let r := plugin_dispatch_values st name vl w in
  (fst (fst r) = 0 \/ fst (fst r) = -1)
  /\ (fst (fst r) = 0
      <-> list_write st <> None /\ lookup (list_data_set st) name <> None)
  /\ (fst (fst r) = -1 -> snd (fst r) = w /\ snd r = []).
Proof.
  cbv zeta. rewrite dispatch_via_lookup.
  destruct (list_write st) as [lw |];
    [destruct (lookup (list_data_set st) name) as [d |] |]; cbn.
  - split; [auto |]. split; [| discriminate].
    split; [intros _; split; discriminate | reflexivity].
  - split; [auto |]. split; [| auto].
    split; [discriminate | intros [_ H]; contradiction].
  - split; [auto |]. split; [| auto].
    split; [discriminate | intros [H _]; contradiction].
Qed.

(** X14: the writers are handed the schema registered last for the type: once
    [plugin_register_data_set] has returned 0 for a schema, a dispatch for its
    type name runs the writers there are on that very schema. *)
Theorem dispatch_uses_registered_schema st d (vl : value_list_t) (w : world)
    (lw : llist_t (write_cb world value_list_t))
    (Hreg : fst (plugin_register_data_set st d) = 0)
    (Hw : list_write st = Some lw) :
  plugin_dispatch_values (snd (plugin_register_data_set st d)) (type d) vl w
  = (0, run_writers lw d vl w, map (fun e => (key e, d, vl)) lw).
Proof.
  rewrite dispatch_via_lookup. revert Hreg. unfold plugin_register_data_set.
  pose proof (register_callback_lookup (mem st) (list_data_set st) (type d) d)
    as (_ & Hsame & _).
  cbv zeta in Hsame.
  destruct (register_callback (mem st) (list_data_set st) (type d) d)
    as [[status reg'] h']. cbn [fst snd list_data_set list_write] in *.
  intros ->. rewrite Hw, (Hsame eq_refl). reflexivity.
Qed.

(** X15: a writer registered under a new name is invoked last: after the
    registration a dispatch invokes the writers there were, in their order
    and on the same arguments, and then the new one. *)
Theorem new_writer_invoked_last st (name : string)
    (cb : write_cb world value_list_t) d (tname : string) (vl : value_list_t)
    (w : world)
    (Hnew : ~ In name (keys (list_write st)))
    (Hok : fst (plugin_register_write st name cb) = 0)
    (Hd : lookup (list_data_set st) tname = Some d) :
  plugin_dispatch_values (snd (plugin_register_write st name cb)) tname vl w
  = (0,
     fst (cb d vl (run_writers (entries (list_write st)) d vl w)),
     map (fun e => (key e, d, vl)) (entries (list_write st)) ++ [(name, d, vl)]).
Proof.
  rewrite dispatch_via_lookup. revert Hok. unfold plugin_register_write.
  pose proof (register_callback_outcome (mem st) (list_write st) name cb) as Hc.
  cbv zeta in Hc.
  destruct (register_callback (mem st) (list_write st) name cb)
    as [[status reg'] h']. cbn [fst snd list_data_set list_write] in *.
  intros ->. rewrite Hd.
  destruct Hc as [(Hf & _) | [(_ & _ & ->) | (_ & _ & Hin & _)]];
    [discriminate | | contradiction].
  unfold llist_append. rewrite run_writers_app, map_app. reflexivity.
Qed.

Lemma sweep_spec (le : list (llentry_t (void_cb world))) (w : world) :
  sweep le w = (run_callbacks le w, map key le).
Proof.
  unfold run_callbacks, void_cb in *. revert w.
  induction le as [| e le IH]; intros w; [reflexivity |].
  cbn [sweep map fold_left]. unfold void_cb.
  destruct (value e w) as [w1 status]. cbn [fst]. rewrite IH. reflexivity.
Qed.

(** X16: the init and the shutdown sweep run every callback of their registry
    once, in the order of the registry, each on the world the one before
    left, whatever status the callbacks return; on a registry that was never
    created they do nothing. *)
Theorem lifecycle_sweeps st (w : world) :
  plugin_init_all st w
  = (run_callbacks (entries (list_init st)) w, keys (list_init st))
  /\ plugin_shutdown_all st w
     = (run_callbacks (entries (list_shutdown st)) w, keys (list_shutdown st))
  /\ (list_init st = None -> plugin_init_all st w = (w, []))
  /\ (list_shutdown st = None -> plugin_shutdown_all st w = (w, [])).
Proof.
  unfold plugin_init_all, plugin_shutdown_all, llist_head.
  split; [| split; [| split]].
  - destruct (list_init st); [apply sweep_spec | reflexivity].
  - destruct (list_shutdown st); [apply sweep_spec | reflexivity].
  - intros ->. reflexivity.
  - intros ->. reflexivity.
Qed.

End PluginMore.

Section PluginMoreExamples.
Import LList Plugin Example.
Local Open Scope string_scope.

(** A read callback registered under the name of a writer: the dispatch of a
    [cpu] measurement is what it was. *)
Lemma dispatch_ignores_other_registrations_witness :
  concerns_dispatch (@RegRead world value_list_t "csv" (log_callback "csv" 0)) "cpu" = false
  /\ plugin_dispatch_values
       (snd (register two_writers (@RegRead world value_list_t "csv" (log_callback "csv" 0))))
       "cpu" [1; 2] []
     = (0, ["rrdtool:cpu"; "csv:cpu"],
        [("rrdtool", cpu, [1; 2]); ("csv", cpu, [1; 2])]).
Proof.
  split; [reflexivity |].
  rewrite (dispatch_ignores_other_registrations two_writers
             (@RegRead world value_list_t "csv" (log_callback "csv" 0)) "cpu" [1; 2] [] eq_refl).
  reflexivity.
Defined.

(** The schema for [cpu] registered after the two writers. *)
Lemma dispatch_uses_registered_schema_witness :
  fst (plugin_register_data_set no_schema cpu) = 0
  /\ list_write no_schema
     = Some [ {| key := "rrdtool"; value := log_writer "rrdtool" 0 |};
              {| key := "csv"; value := log_writer "csv" 0 |} ]
  /\ plugin_dispatch_values (snd (plugin_register_data_set no_schema cpu))
       "cpu" [1; 2] []
     = (0, ["rrdtool:cpu"; "csv:cpu"],
        [("rrdtool", cpu, [1; 2]); ("csv", cpu, [1; 2])]).
Proof.
  split; [reflexivity |]. split; [reflexivity |].
  exact (eq_trans
           (dispatch_uses_registered_schema no_schema cpu [1; 2] [] _
              eq_refl eq_refl)
           eq_refl).
Defined.

(** A third writer, [network], comes after [rrdtool] and [csv]. *)
Lemma new_writer_invoked_last_witness :
  ~ In "network" (keys (list_write two_writers))
  /\ fst (plugin_register_write two_writers "network" (log_writer "network" 0)) = 0
  /\ lookup (list_data_set two_writers) "cpu" = Some cpu
  /\ plugin_dispatch_values
       (snd (plugin_register_write two_writers "network" (log_writer "network" 0)))
       "cpu" [1; 2] []
     = (0, ["rrdtool:cpu"; "csv:cpu"; "network:cpu"],
        [("rrdtool", cpu, [1; 2]); ("csv", cpu, [1; 2]); ("network", cpu, [1; 2])]).
Proof.
  assert (~ In "network" (keys (list_write two_writers))) as Hnew
      by (intros [H | [H | []]]; discriminate H).
  split; [exact Hnew |]. split; [reflexivity |]. split; [reflexivity |].
  exact (eq_trans
           (new_writer_invoked_last two_writers "network" (log_writer "network" 0)
              cpu "cpu" [1; 2] [] Hnew eq_refl eq_refl)
           eq_refl).
Defined.

End PluginMoreExamples.

(** ** The module loader and the plugin directory *)

Section LoaderMore.
Import LList Loader PluginDir LoadChecks.
Local Open Scope string_scope.

Lemma lower_app (s1 s2 : string) : lower (s1 ++ s2) = lower s1 ++ lower s2.
Proof. induction s1 as [| c s1 IH]; cbn; [reflexivity | rewrite IH; reflexivity]. Qed.

Lemma prefix_app (s1 s2 : string) : String.prefix s1 (s1 ++ s2) = true.
Proof.
  induction s1 as [| c s1 IH]; cbn; [destruct s2; reflexivity |].
  destruct (ascii_dec c c) as [_ | Hne]; [exact IH | contradiction].
Qed.

(** X17: the loader makes no difference of case, in the type name or in the
    file name: two type names and two file names that are equal up to case
    are candidates together or not at all; and a file named after the type,
    with [".so"] and anything behind it, is always a candidate. *)
Theorem candidate_ignores_case (type type' d_name d_name' : string)
    (Hc : is_cstring type = true) (Hc' : is_cstring type' = true)
    (Ht : lower type = lower type') (Hd : lower d_name = lower d_name') :
  candidate type d_name = candidate type' d_name'
  /\ forall rest, candidate type ((type ++ ".so") ++ rest) = true.
Proof.
  assert (forall t d, is_cstring t = true ->
            candidate t d = String.prefix (lower t ++ ".so") (lower d)) as Hcand.
  { intros t d Ht0. unfold candidate.
    rewrite strncasecmp_prefix by (apply is_cstring_app; [exact Ht0 | reflexivity]).
    unfold begins_with_nocase. rewrite lower_app. reflexivity. }
  split.
  - rewrite !Hcand by assumption. rewrite Ht, Hd. reflexivity.
  - intros rest. rewrite Hcand by assumption.
    rewrite !lower_app. apply prefix_app.
Qed.

(** [CPU] and [cpu], [Cpu.SO] and [cpu.so]. *)
Lemma candidate_ignores_case_witness :
  is_cstring "CPU" = true /\ is_cstring "cpu" = true
  /\ lower "CPU" = lower "cpu" /\ lower "Cpu.SO" = lower "cpu.so"
  /\ candidate "CPU" "Cpu.SO" = candidate "cpu" "cpu.so".
Proof.
  repeat (split; [reflexivity |]).
  exact (proj1 (candidate_ignores_case "CPU" "cpu" "Cpu.SO" "cpu.so"
                  eq_refl eq_refl eq_refl eq_refl)).
Defined.

(** X18: [plugin_set_dir] followed by [plugin_get_dir]: the directory given is
    the one returned; NULL brings back the built-in [PLUGINDIR]; so does a
    directory that could not be copied for want of memory, in which case one
    error line is logged.  The directory set before plays no part. *)
Theorem set_dir_then_get_dir (PLUGINDIR : string) (h : heap)
    (old dir : option string) :
  let r := plugin_set_dir h old dir in
  plugin_get_dir PLUGINDIR (fst (fst r))
  = match dir with
    | None => PLUGINDIR
    | Some d => if fst (malloc h) then d else PLUGINDIR
    end
  /\ (snd r = [LOG_ERR] <-> dir <> None /\ fst (malloc h) = false)
  /\ (snd r = [] \/ snd r = [LOG_ERR])
  /\ (forall old', plugin_set_dir h old' dir = r).
Proof.
  cbv zeta. unfold plugin_set_dir, strdup, plugin_get_dir.
  destruct dir as [d |]; cbn.
  - destruct (malloc h) as [[] h']; cbn.
    + split; [reflexivity |]. split; [| auto].
      split; [discriminate | intros [_ H]; discriminate].
    + split; [reflexivity |]. split; [| auto].
      split; [intros _; split; [discriminate | reflexivity] | reflexivity].
  - split; [reflexivity |]. split; [| auto].
    split; [discriminate | intros [H _]; contradiction].
Qed.

Context {world dlhandle : Type}.
Variable lt_dlopen : string -> option dlhandle.
Variable lt_dlsym : dlhandle -> string -> option (world -> world).
Variable opendir : string -> option (list string).
Variable lstat : string -> option Z.
Variable PLUGINDIR : string.

Lemma plugin_load_cases (plugindir : option string) (type : string) (w : world) :
  let dir := plugin_get_dir PLUGINDIR plugindir in
  let r := plugin_load lt_dlopen lt_dlsym opendir lstat PLUGINDIR plugindir type w in
  ((BUFSIZE <= Z.of_nat (strlen (type ++ ".so")) \/ opendir dir = None)%Z
   /\ r = ((-1)%Z, w, []))
  \/ ((Z.of_nat (strlen (type ++ ".so")) < BUFSIZE)%Z
      /\ exists des,
           opendir dir = Some des
           /\ r = ((if existsb (activates lt_dlopen lt_dlsym lstat dir)
                         (filter (candidate type) des) then 0%Z else 1%Z),
                   world_after_load lt_dlopen lt_dlsym lstat dir
                     (filter (candidate type) des) w,
                   map (fun d => (d, attempt_of lt_dlopen lt_dlsym lstat dir d))
                     (through_first (activates lt_dlopen lt_dlsym lstat dir)
                        (filter (candidate type) des)))).
Proof.
  cbv zeta. unfold plugin_load.
  destruct (Z.of_nat (strlen (type ++ ".so")) >=? BUFSIZE)%Z eqn:E.
  - left. rewrite Z.geb_leb in E. apply Z.leb_le in E. auto.
  - rewrite Z.geb_leb in E. apply Z.leb_gt in E.
    destruct (opendir (plugin_get_dir PLUGINDIR plugindir)) as [des |] eqn:Ed.
    + right. split; [exact E |]. exists des. split; [reflexivity |].
      apply load_loop_spec.
    + left. auto.
Qed.


Lemma through_first_incl {A : Type} (p : A -> bool) (l : list A) :
  incl (through_first p l) l.
Proof.
  induction l as [| x l IH]; cbn; [apply incl_refl |].
  destruct (p x).
  - intros y [<- | []]. left. reflexivity.
  - apply incl_cons; [left; reflexivity | apply incl_tl; exact IH].
Qed.

Lemma attempt_of_loadable (dir d_name : string) :
  match attempt_of lt_dlopen lt_dlsym lstat dir d_name with
  | LoadFile _ => loadable lstat dir d_name = true
  | _ => loadable lstat dir d_name = false
  end.
Proof.
  unfold attempt_of, loadable. cbv zeta.
  rewrite Z.geb_leb, Z.ltb_antisym.
  destruct (BUFSIZE <=? Z.of_nat (strlen (dir ++ "/" ++ d_name)))%Z; cbn [negb andb];
    [reflexivity |].
  destruct (lstat (dir ++ "/" ++ d_name)) as [st_mode |]; cbn [negb andb]; [| reflexivity].
  destruct (S_ISREG st_mode); cbn [negb andb]; [| reflexivity].
  destruct (lt_dlopen (dir ++ "/" ++ d_name)) as [dlh |]; cbn [negb andb]; [| reflexivity].
  destruct (lt_dlsym dlh "module_register"); cbn [negb andb]; reflexivity.
Qed.

(** X20: symbolic links are not followed: every entry [plugin_load] does
    anything with is a candidate by its name, and [plugin_load_file] is
    reached for such an entry exactly when its path fits the buffer and
    [lstat] shows a regular file. *)
Theorem plugin_load_regular_files_only (plugindir : option string) (type : string)
    (w : world) :
  let dir := plugin_get_dir PLUGINDIR plugindir in
  let r := plugin_load lt_dlopen lt_dlsym opendir lstat PLUGINDIR plugindir type w in
  Forall (fun e => candidate type (fst e) = true) (snd r)
  /\ Forall (fun e =>
               match snd e with
               | LoadFile _ => loadable lstat dir (fst e) = true
               | _ => loadable lstat dir (fst e) = false
               end) (snd r).
Proof.
  cbv zeta. pose proof (plugin_load_cases plugindir type w) as Hc. cbv zeta in Hc.
  destruct Hc as [(_ & ->) | (_ & des & _ & ->)]; cbn [fst snd].
  - split; constructor.
  - split; apply Forall_forall; intros [d a] Hin; apply in_map_iff in Hin;
      destruct Hin as (d0 & Heq & Hin); injection Heq as -> <-; cbn [fst snd].
    + apply through_first_incl in Hin. apply filter_In in Hin. apply Hin.
    + apply attempt_of_loadable.
Qed.

End LoaderMore.
